(** * Shuffle metadata registry of DeepLabCut

    A shallow embedding of
    [deeplabcut/generate_training_dataset/metadata.py]: the data split of a
    shuffle ([DataSplit]), the record of a shuffle ([ShuffleMetadata]), the
    registry of a project ([TrainingDatasetMetadata]) with [add], [get],
    [save], [load] and [create], and the engine resolver
    ([get_shuffle_engine], [find_engines_from_model_folders]).

    Conventions of the embedding.
    - Python integers are [Z]; tuples and lists are [list].
    - A training fraction is a Python float that is only ever compared
      ([<], [==]) and used as a sort key.  Floats other than NaN are ordered
      as the rationals they denote, so a fraction is a canonical rational
      [Qc]; the one arithmetic use, [int(100 * train_frac)] in shuffle names,
      is kept as a function parameter.
    - An exception is a value of [error]; a function that can raise returns
      a [result].  The source raises [RuntimeError] and [ValueError] only;
      the constructors name the raise sites.
    - The file system is an explicit finite map from paths to files, passed
      to and returned by the functions that read and write it. *)

From Stdlib Require Import QArith Qcanon Ascii.
From stdpp Require Import sorting base option list gmap strings pretty numbers.

Open Scope Z_scope.

(** ** Exceptions and results *)

Inductive error : Type :=
| InvalidSplit       (* RuntimeError of DataSplit.__post_init__ *)
| UnsortedShuffles   (* RuntimeError of TrainingDatasetMetadata.__post_init__ *)
| DuplicateShuffle   (* RuntimeError of TrainingDatasetMetadata.add *)
| ShuffleNotFound    (* ValueError of TrainingDatasetMetadata.get *)
| SplitFileMissing   (* ValueError of ShuffleMetadata.load_split *)
| NoEngineFound      (* ValueError of get_shuffle_engine *)
| UnknownEngine      (* ValueError of Engine(alias) *)
| IndexError         (* cfg["TrainingFraction"][i] out of range *)
| FileNotFound       (* open() of a path that is not a file *)
| UnpicklingError    (* the file opened is not a pickled 4-tuple *)
| YamlError          (* the file opened is not a metadata document *)
| IntValueError      (* int(s) of a string that is not a number *)
| KeyError           (* set.pop() of an empty set *)
| IsADirectory       (* open(p, "w") of a path that is a folder *)
| NotADirectory.     (* open(p, "w") of a path in something that is no folder *)

Inductive result (A : Type) : Type :=
| Ok (a : A)
| Raise (e : error).
Arguments Ok {A} a.
Arguments Raise {A} e.

Global Instance result_ret : MRet result := fun A a => Ok a.

Global Instance result_bind : MBind result := fun A B k r =>
  match r with
  | Ok a => k a
  | Raise e => Raise e
  end.

Definition is_Ok {A} (r : result A) : Prop := exists a, r = Ok a.

(** [for x in l: body] over a state [S], stopping at the first exception. *)
Fixpoint for_each {A S} (body : A -> S -> result S) (l : list A) (s : S)
  : result S :=
  match l with
  | [] => Ok s
  | x :: l' => s' ← body x s; for_each body l' s'
  end.

(** ** Engine *)

(** Modelled from the spec: the class [Engine] of [deeplabcut.core.engine] is
    not part of the sources at hand.  The spec gives a closed enumeration of
    two tags, "TF" and "PYTORCH". *)
Inductive Engine : Type := PYTORCH | TF.

Global Instance Engine_eq_dec : EqDecision Engine.
Proof. solve_decision. Defined.

Global Instance Engine_countable : Countable Engine :=
  inj_countable'
    (fun e => match e with PYTORCH => true | TF => false end)
    (fun b : bool => if b then PYTORCH else TF)
    (fun e => match e with PYTORCH => eq_refl | TF => eq_refl end).

(** Modelled from the spec: [for engine in Engine], the members of the
    enumeration. *)
Definition Engine_members : list Engine := [PYTORCH; TF].

(** Modelled from the spec: [engine.aliases], the serialization aliases of a
    tag, of which the first is the one written ("pytorch", "tensorflow"). *)
Definition aliases (e : Engine) : list string :=
  match e with
  | PYTORCH => ["pytorch"; "torch"]
  | TF => ["tensorflow"; "tf"]
  end%string.

(** [engine.aliases[0]] *)
Definition primary_alias (e : Engine) : string :=
  match aliases e with
  | a :: _ => a
  | [] => ""%string
  end.

(** Modelled from the spec: [Engine(alias)], which fails on a string that is
    no alias of a tag. *)
Definition Engine_of_alias (a : string) : result Engine :=
  match list_find (fun e => a ∈ aliases e) Engine_members with
  | Some (_, e) => Ok e
  | None => Raise UnknownEngine
  end.

(** ** DataSplit *)

Record DataSplit : Type := Build_DataSplit {
  train_indices : list Z;
  test_indices : list Z
}.

Global Instance DataSplit_eq_dec : EqDecision DataSplit.
Proof. solve_decision. Defined.

Global Instance DataSplit_countable : Countable DataSplit :=
  inj_countable'
    (fun d => (train_indices d, test_indices d))
    (fun p => Build_DataSplit (fst p) (snd p))
    (fun d => match d with Build_DataSplit _ _ => eq_refl end).

(** [zip(l[:-1], l[1:])]: the pairs of neighbours of a sequence. *)
Definition neighbours {A} (l : list A) : list (A * A) :=
  zip (removelast l) (tail l).

(** [np.all(idx[:-1] < idx[1:])]: the indices are indices of images, in the
    range where the comparison of a numpy array is the comparison of the
    integers. *)
Definition np_all_lt (idx : list Z) : bool :=
  forallb (fun p => fst p <? snd p) (neighbours idx).

(** [DataSplit.__post_init__]: the loop over the two index sequences. *)
Definition DataSplit_post_init (d : DataSplit) : result unit :=
  for_each
    (fun indices (_ : unit) =>
       if negb (np_all_lt indices) then Raise InvalidSplit else Ok tt)
    [train_indices d; test_indices d] tt.

(** [DataSplit(train_indices=..., test_indices=...)] *)
Definition DataSplit_new (train test : list Z) : result DataSplit :=
  let d := Build_DataSplit train test in
  _ ← DataSplit_post_init d; Ok d.

(** ** Sorting

    [sorted(l, key=...)] and [list.sort(key=...)] are stable and compare keys
    with [<] only.  A stable sort is determined by its input, so it is
    modelled by the insertion sort that puts an element before the first
    element whose key is not smaller. *)

Section sorted.
Context {A K : Type} (lt : K -> K -> bool) (key : A -> K).

Fixpoint insort (x : A) (l : list A) : list A :=
  match l with
  | [] => [x]
  | y :: l' => if lt (key y) (key x) then y :: insort x l' else x :: l
  end.

Definition sorted (l : list A) : list A := foldr insort [] l.
End sorted.

(** [tuple(sorted([int(idx) for idx in indices]))] *)
Definition sorted_ints (indices : list Z) : list Z := sorted Z.ltb id indices.

(** ** ShuffleMetadata *)

Record ShuffleMetadata : Type := Build_ShuffleMetadata {
  name : string;
  train_fraction : Qc;
  index : Z;
  engine : Engine;
  split : option DataSplit
}.

Global Instance ShuffleMetadata_eq_dec : EqDecision ShuffleMetadata.
Proof. solve_decision. Defined.

(** [<] and [==] of two fractions. *)
Definition frac_lt (a b : Qc) : bool := bool_decide (a < b)%Qc.
Definition frac_eq (a b : Qc) : bool := bool_decide (a = b).

(** [lambda s: (s.train_fraction, s.index)] *)
Definition sort_key (s : ShuffleMetadata) : Qc * Z := (train_fraction s, index s).

(** [<] of two key tuples: the first components that differ decide. *)
Definition tuple_lt (a b : Qc * Z) : bool :=
  if negb (frac_eq (fst a) (fst b)) then frac_lt (fst a) (fst b)
  else if negb (snd a =? snd b) then snd a <? snd b
  else false.

Definition sorted_shuffles (l : list ShuffleMetadata) : list ShuffleMetadata :=
  sorted tuple_lt sort_key l.

(** ** Project configuration, paths and files *)

(** A path is the list of its components: [p / q] is [p ++ q], [p.parent]
    drops the last component and [p.name] is the last component. *)
Abbreviation Path := (list string).

Definition parent (p : Path) : Path := removelast p.
Definition path_name (p : Path) : string := List.last p "".

Record Config : Type := Build_Config {
  project_path : Path;
  Task : string;
  date : string;
  TrainingFraction : list Qc
}.

(** What the code reads from a pickled documentation file: the 4-tuple
    [(_, train_idx, test_idx, train_frac)], its first component unused. *)
Record Documentation : Type := Build_Documentation {
  doc_train_idx : list Z;
  doc_test_idx : list Z;
  doc_train_frac : Qc
}.

(** An entry of [metadata["shuffles"]]. *)
Record Entry : Type := Build_Entry {
  entry_train_fraction : Qc;
  entry_index : Z;
  entry_split : Z;
  entry_engine : string
}.

(** [metadata["shuffles"]]: a dict in insertion order. *)
Abbreviation Document := (list (string * Entry)).

(** [d[k] = v] on a dict in insertion order. *)
Fixpoint dict_set {V} (k : string) (v : V) (d : list (string * V))
  : list (string * V) :=
  match d with
  | [] => [(k, v)]
  | (k', v') :: d' =>
      if decide (k' = k) then (k', v) :: d' else (k', v') :: dict_set k v d'
  end.

(** A file is kept with what a reader gets from it: a pickled documentation
    tuple, a YAML document as it is parsed (dumping and loading a document
    give the document back), a folder, or anything else.  Folders are
    entries of their own, and a new file can only be made in a folder that
    is there. *)
Inductive File : Type :=
| Pickle (d : Documentation)
| Yaml (m : Document)
| Folder
| Other.

Abbreviation FileSystem := (gmap Path File).

(** [Path(p).exists()] *)
Definition exists_ (fs : FileSystem) (p : Path) : bool :=
  bool_decide (is_Some (fs !! p)).

(** [pickle.load(open(p, "rb"))] *)
Definition pickle_load (fs : FileSystem) (p : Path) : result Documentation :=
  match fs !! p with
  | Some (Pickle d) => Ok d
  | Some _ => Raise UnpicklingError
  | None => Raise FileNotFound
  end.

(** [YAML(typ="safe", pure=True).load(open(p, "r"))] *)
Definition yaml_load (fs : FileSystem) (p : Path) : result Document :=
  match fs !! p with
  | Some (Yaml m) => Ok m
  | Some _ => Raise YamlError
  | None => Raise FileNotFound
  end.

(** [open(p, "w")]: a file that is there is opened and emptied; a file that
    is not there is made, which needs its folder; a folder cannot be
    opened. *)
Definition open_w (fs : FileSystem) (p : Path) : result unit :=
  match fs !! p with
  | Some Folder => Raise IsADirectory
  | Some _ => Ok tt
  | None =>
      match fs !! parent p with
      | Some Folder => Ok tt
      | Some _ => Raise NotADirectory
      | None => Raise FileNotFound
      end
  end.

(** The entries of a directory, and the lists that [d.iterdir()] may yield:
    the entries in the order of the operating system. *)
Definition entries (fs : FileSystem) (d : Path) : list Path :=
  filter (fun p => p <> [] /\ parent p = d) (elements (dom fs)).

Definition is_iterdir (fs : FileSystem) (d : Path) (listing : list Path) : Prop :=
  listing ≡ₚ entries fs d.

(** [l[i]] of a Python list, negative indices counting from the end. *)
Definition py_index {A} (l : list A) (i : Z) : result A :=
  let n := Z.of_nat (length l) in
  let j := if i <? 0 then i + n else i in
  if (0 <=? j) && (j <? n) then
    match l !! Z.to_nat j with
    | Some x => Ok x
    | None => Raise IndexError
    end
  else Raise IndexError.

(** ** File names of the documentation files *)

Module Names.

Fixpoint strip_prefix (p s : string) : option string :=
  match p, s with
  | EmptyString, _ => Some s
  | String a p', String b s' =>
      if Ascii.eqb a b then strip_prefix p' s' else None
  | String _ _, EmptyString => None
  end.

Definition is_digit (c : ascii) : bool :=
  let n := Ascii.N_of_ascii c in ((48 <=? n) && (n <=? 57))%N.

Definition digit_value (c : ascii) : Z := Z.of_N (Ascii.N_of_ascii c) - 48.

Fixpoint skip_digits (s : string) : string :=
  match s with
  | String c s' => if is_digit c then skip_digits s' else s
  | EmptyString => EmptyString
  end.

(** [[0-9]+\.pickle] at the start of [s] *)
Definition match_digits_pickle (s : string) : bool :=
  match s with
  | String c s' =>
      is_digit c && bool_decide (is_Some (strip_prefix ".pickle" (skip_digits s')))
  | EmptyString => false
  end.

(** [shuffle[0-9]+\.pickle] at the start of [s] *)
Definition match_shuffle (s : string) : bool :=
  match strip_prefix "shuffle" s with
  | Some t => match_digits_pickle t
  | None => false
  end.

(** [.*shuffle[0-9]+\.pickle] at the start of [s]; [.] is any character
    but the newline. *)
Fixpoint match_any_shuffle (s : string) : bool :=
  match_shuffle s ||
  match s with
  | String c s' => negb (Ascii.eqb c "010"%char) && match_any_shuffle s'
  | EmptyString => false
  end.

(** [re.match(r"Documentation_data-.+shuffle[0-9]+\.pickle", name)]: the
    pattern is matched at the start of the name, what follows is free. *)
Definition re_match (name : string) : bool :=
  match strip_prefix "Documentation_data-" name with
  | Some (String c s') => negb (Ascii.eqb c "010"%char) && match_any_shuffle s'
  | _ => false
  end.

(** [name.rfind(".")] *)
Fixpoint rfind_dot (s : string) : option nat :=
  match s with
  | EmptyString => None
  | String c s' =>
      match rfind_dot s' with
      | Some i => Some (S i)
      | None => if Ascii.eqb c "."%char then Some 0%nat else None
      end
  end.

(** [Path.stem]: the name without its last suffix, a suffix starting at a
    dot that is neither the first nor the last character. *)
Definition stem (name : string) : string :=
  match rfind_dot name with
  | Some i =>
      if bool_decide (0 < i < String.length name - 1)%nat
      then String.substring 0 i name else name
  | None => name
  end.

(** [s.split("shuffle")[-1]]: what follows the last "shuffle", or [s]. *)
Fixpoint after_last_shuffle (s acc : string) : string :=
  match s with
  | EmptyString => acc
  | String _ s' =>
      after_last_shuffle s'
        (match strip_prefix "shuffle" s with Some t => t | None => acc end)
  end.

Definition split_shuffle_last (s : string) : string := after_last_shuffle s s.

Definition is_space (c : ascii) : bool :=
  let n := Ascii.N_of_ascii c in
  ((n =? 32) || ((9 <=? n) && (n <=? 13)) || ((28 <=? n) && (n <=? 31)))%N.

Fixpoint lstrip (s : string) : string :=
  match s with
  | String c s' => if is_space c then lstrip s' else s
  | EmptyString => EmptyString
  end.

Definition strip (s : string) : string :=
  String.rev (lstrip (String.rev (lstrip s))).

(** Decimal digits, single underscores allowed between two digits. *)
Fixpoint digits (s : string) (acc : Z) (after_digit : bool) : option Z :=
  match s with
  | EmptyString => if after_digit then Some acc else None
  | String c s' =>
      if is_digit c then digits s' (10 * acc + digit_value c) true
      else if Ascii.eqb c "_"%char && after_digit then
        match s' with
        | String c' _ => if is_digit c' then digits s' acc false else None
        | EmptyString => None
        end
      else None
  end.

(** [int(s)] of a string (ASCII): white space around, an optional sign,
    decimal digits. *)
Definition int (s : string) : result Z :=
  let r :=
    match strip s with
    | String "+"%char t => digits t 0 false
    | String "-"%char t => Z.opp <$> digits t 0 false
    | t => digits t 0 false
    end in
  match r with
  | Some n => Ok n
  | None => Raise IntValueError
  end.

End Names.

(** ** The functions of [deeplabcut.utils.auxiliaryfunctions] that the module
    calls, and the float product in the shuffle names.  Their code is not part
    of the module; they are parameters of everything below. *)

Record Auxiliary : Type := Build_Auxiliary {
  (* get_data_and_metadata_filenames(trainset_path, train_fraction, index, cfg) *)
  get_data_and_metadata_filenames : Path -> Qc -> Z -> Config -> Path * Path;
  (* get_training_set_folder(cfg) *)
  get_training_set_folder : Config -> Path;
  (* get_model_folder(trainFraction, shuffle, cfg, engine, modelprefix) *)
  get_model_folder : Qc -> Z -> Config -> Engine -> string -> Path;
  (* int(100 * train_fraction) *)
  int_100_times : Qc -> Z
}.


(** ** TrainingDatasetMetadata *)

Record TrainingDatasetMetadata : Type := Build_TrainingDatasetMetadata {
  project_config : Config;
  shuffles : list ShuffleMetadata
}.

(** [frac1 < frac2 or (frac1 == frac2 and idx1 < idx2)] *)
Definition in_order (a b : Qc * Z) : bool :=
  let '(frac1, idx1) := a in
  let '(frac2, idx2) := b in
  frac_lt frac1 frac2 || (frac_eq frac1 frac2 && (idx1 <? idx2)).

(** [TrainingDatasetMetadata.__post_init__] *)
Definition TrainingDatasetMetadata_post_init (self : TrainingDatasetMetadata)
  : result unit :=
  let indices := sort_key <$> shuffles self in
  for_each
    (fun p (_ : unit) =>
       if negb (in_order (fst p) (snd p)) then Raise UnsortedShuffles else Ok tt)
    (neighbours indices) tt.

(** [TrainingDatasetMetadata(project_config=..., shuffles=...)] *)
Definition TrainingDatasetMetadata_new (cfg : Config) (l : list ShuffleMetadata)
  : result TrainingDatasetMetadata :=
  let self := Build_TrainingDatasetMetadata cfg l in
  _ ← TrainingDatasetMetadata_post_init self; Ok self.

(** [TrainingDatasetMetadata.add] *)
Definition add (self : TrainingDatasetMetadata) (shuffle : ShuffleMetadata)
    (overwrite : bool) : result TrainingDatasetMetadata :=
  let existing_indices :=
    index <$>
      filter (fun s => train_fraction s = train_fraction shuffle) (shuffles self) in
  if bool_decide (index shuffle ∈ existing_indices) && negb overwrite
  then Raise DuplicateShuffle
  else
    let existing_shuffles :=
      filter
        (fun s => index s <> index shuffle \/
                  train_fraction s <> train_fraction shuffle)
        (shuffles self) in
    let shuffles := existing_shuffles ++ [shuffle] in
    TrainingDatasetMetadata_new (project_config self) (sorted_shuffles shuffles).

(** [TrainingDatasetMetadata.get] *)
Definition get (self : TrainingDatasetMetadata) (trainset_index index_ : Z)
  : result ShuffleMetadata :=
  train_fraction_ ← py_index (TrainingFraction (project_config self)) trainset_index;
  match
    list_find
      (fun shuffle => train_fraction shuffle = train_fraction_ /\ index shuffle = index_)
      (shuffles self)
  with
  | Some (_, shuffle) => Ok shuffle
  | None => Raise ShuffleNotFound
  end.

(** The interning step of [save] and [create] on a dict from values to ids:
    [i = d.get(k); if i is None: i = len(d) + 1; d[k] = i]. *)
Definition intern `{Countable K} (d : gmap K Z) (k : K) : Z * gmap K Z :=
  match d !! k with
  | Some i => (i, d)
  | None => let i := Z.of_nat (size d) + 1 in (i, <[k := i]> d)
  end.

(** [set.pop()]: some element of the set, which one is not specified; the
    choice is the extra argument. *)
Definition set_pop `{Countable K} (choice : nat) (s : gset K) : result K :=
  match elements s !! (choice mod size s)%nat with
  | Some x => Ok x
  | None => Raise KeyError
  end.

Section Metadata.
Variable aux : Auxiliary.

(** [ShuffleMetadata.load_split] *)
Definition load_split (self : ShuffleMetadata) (cfg : Config)
    (trainset_path : Path) (fs : FileSystem) : result ShuffleMetadata :=
  let doc_path :=
    snd (get_data_and_metadata_filenames aux trainset_path
           (train_fraction self) (index self) cfg) in
  if negb (exists_ fs doc_path) then Raise SplitFileMissing
  else
    d ← pickle_load fs doc_path;
    split_ ← DataSplit_new (sorted_ints (doc_train_idx d))
                           (sorted_ints (doc_test_idx d));
    Ok {| name := name self;
          train_fraction := train_fraction self;
          index := index self;
          engine := engine self;
          split := Some split_ |}.

(** [TrainingDatasetMetadata.path] *)
Definition path (cfg : Config) : Path :=
  let meta_path := get_training_set_folder aux cfg ++ ["metadata.yaml"] in
  project_path cfg ++ meta_path.

(** [if s.split is None: s = s.load_split(cfg, trainset_path)] *)
Definition with_split (cfg : Config) (trainset_path : Path) (fs : FileSystem)
    (s : ShuffleMetadata) : result ShuffleMetadata :=
  if split s is None then load_split s cfg trainset_path fs else Ok s.

(** The entry that [save] writes for a record. *)
Definition entry_of (s : ShuffleMetadata) (split_index : Z) : Entry :=
  {| entry_train_fraction := train_fraction s;
     entry_index := index s;
     entry_split := split_index;
     entry_engine := primary_alias (engine s) |}.

(** The body of the loop of [save]. *)
Definition save_body (cfg : Config) (trainset_path : Path) (fs : FileSystem)
    (s : ShuffleMetadata) (st : Document * gmap (option DataSplit) Z)
  : result (Document * gmap (option DataSplit) Z) :=
  let '(metadata, data_splits) := st in
  s ← with_split cfg trainset_path fs s;
  let '(split_index, data_splits) := intern data_splits (split s) in
  Ok (dict_set (name s) (entry_of s split_index) metadata, data_splits).

(** [TrainingDatasetMetadata.save]; the three header lines of the file are
    comments of the document and not modelled. *)
Definition save (self : TrainingDatasetMetadata) (fs : FileSystem)
  : result FileSystem :=
  let trainset_path := parent (path (project_config self)) in
  st ← for_each (save_body (project_config self) trainset_path fs)
                (shuffles self) ([], ∅);
  _ ← open_w fs (path (project_config self));
  Ok (<[path (project_config self) := Yaml (fst st)]> fs).

(** The body of the loop of [load]. *)
Definition load_body (cfg : Config) (load_splits : bool) (fs : FileSystem)
    (item : string * Entry) (shuffles : list ShuffleMetadata)
  : result (list ShuffleMetadata) :=
  let '(shuffle_name, shuffle_metadata) := item in
  engine_ ← Engine_of_alias (entry_engine shuffle_metadata);
  let shuffle :=
    {| name := shuffle_name;
       train_fraction := entry_train_fraction shuffle_metadata;
       index := entry_index shuffle_metadata;
       engine := engine_;
       split := None |} in
  shuffle ← (if load_splits then load_split shuffle cfg (parent (path cfg)) fs
             else Ok shuffle);
  Ok (shuffles ++ [shuffle]).

(** [TrainingDatasetMetadata.load], for a config given as a dict. *)
Definition load (cfg : Config) (load_splits : bool) (fs : FileSystem)
  : result TrainingDatasetMetadata :=
  metadata ← yaml_load fs (path cfg);
  shuffles ← for_each (load_body cfg load_splits fs) metadata [];
  TrainingDatasetMetadata_new cfg (sorted_shuffles shuffles).

(** [f"{prefix}-trainset{int(100 * train_frac)}shuffle{index}"] *)
Definition shuffle_name (cfg : Config) (train_frac : Qc) (index_ : Z) : string :=
  (Task cfg +:+ date cfg) +:+ "-trainset" +:+ pretty (int_100_times aux train_frac)
    +:+ "shuffle" +:+ pretty index_.

(** The body of the loop of [create]. *)
Definition create_body (cfg : Config) (fs : FileSystem) (doc_path : Path)
    (st : list ShuffleMetadata * gmap (list Z * list Z) Z)
  : result (list ShuffleMetadata * gmap (list Z * list Z) Z) :=
  let '(shuffles, existing_splits) := st in
  index_ ← Names.int (Names.split_shuffle_last (Names.stem (path_name doc_path)));
  d ← pickle_load fs doc_path;
  let engine_ := TF in
  let train_idx := sorted_ints (doc_train_idx d) in
  let test_idx := sorted_ints (doc_test_idx d) in
  let '(split_idx, existing_splits) := intern existing_splits (train_idx, test_idx) in
  split_ ← DataSplit_new train_idx test_idx;
  Ok (shuffles ++
        [ {| name := shuffle_name cfg (doc_train_frac d) index_;
             train_fraction := doc_train_frac d;
             index := index_;
             engine := engine_;
             split := Some split_ |} ],
      existing_splits).

(** [TrainingDatasetMetadata.create], for a config given as a dict;
    [listing] is what [trainset_path.iterdir()] yields. *)
Definition create (cfg : Config) (fs : FileSystem) (listing : list Path)
  : result TrainingDatasetMetadata :=
  let shuffle_docs := filter (fun f => Names.re_match (path_name f) = true) listing in
  st ← for_each (create_body cfg fs) shuffle_docs ([], ∅);
  TrainingDatasetMetadata_new cfg (sorted_shuffles (fst st)).

(** [update_metadata] *)
Definition update_metadata (cfg : Config) (train_fraction_ : Qc) (shuffle : Z)
    (engine_ : Engine) (train_indices_ test_indices_ : list Z)
    (overwrite : bool) (fs : FileSystem) : result FileSystem :=
  metadata ← load cfg true fs;
  split_ ← DataSplit_new (sorted_ints train_indices_) (sorted_ints test_indices_);
  let new_shuffle :=
    {| name := shuffle_name cfg train_fraction_ shuffle;
       train_fraction := train_fraction_;
       index := shuffle;
       engine := engine_;
       split := Some split_ |} in
  metadata ← add metadata new_shuffle overwrite;
  save metadata fs.

(** [find_engines_from_model_folders] *)
Definition find_engines_from_model_folders (cfg : Config) (trainingsetindex : Z)
    (shuffle : Z) (modelprefix : string) (fs : FileSystem)
  : result (gset Engine) :=
  train_fraction_ ← py_index (TrainingFraction cfg) trainingsetindex;
  Ok (foldl
        (fun (existing_engines : gset Engine) engine_ =>
           let expected_model_folder :=
             project_path cfg ++
             get_model_folder aux train_fraction_ shuffle cfg engine_ modelprefix in
           if exists_ fs expected_model_folder
           then existing_engines ∪ {[ engine_ ]}
           else existing_engines)
        ∅ Engine_members).

(** The first step of [get_shuffle_engine]: a project without metadata file
    gets the one that [create] builds. *)
Definition ensure_metadata (cfg : Config) (fs : FileSystem) (listing : list Path)
  : result FileSystem :=
  if negb (exists_ fs (path cfg))
  then metadata ← create cfg fs listing; save metadata fs
  else Ok fs.

(** [get_shuffle_engine]; the warning it logs is not modelled.  The result
    is the engine and the file system, which the first step may extend
    with the metadata file. *)
Definition get_shuffle_engine (cfg : Config) (trainingsetindex shuffle : Z)
    (modelprefix : string) (fs : FileSystem) (listing : list Path)
    (choice : nat) : result (Engine * FileSystem) :=
  fs ← ensure_metadata cfg fs listing;
  metadata ← load cfg false fs;
  shuffle_metadata ← get metadata trainingsetindex shuffle;
  if negb (String.eqb modelprefix "") then
    engines ← find_engines_from_model_folders cfg trainingsetindex shuffle
                modelprefix fs;
    if (size engines =? 0)%nat then Raise NoEngineFound
    else if (size engines =? 1)%nat then
      e ← set_pop choice engines; Ok (e, fs)
    else if bool_decide (engine shuffle_metadata ∈ engines)
    then Ok (engine shuffle_metadata, fs)
    else e ← set_pop choice engines; Ok (e, fs)
  else Ok (engine shuffle_metadata, fs).

End Metadata.

(** ** Properties used in the statements *)

(** A sequence of integers in strictly ascending order. *)
Definition strictly_ascending (l : list Z) : Prop :=
  forall i j x y, (i < j)%nat -> l !! i = Some x -> l !! j = Some y -> x < y.

(** The order of the keys [(train_fraction, index)]. *)
Definition key_lt (a b : Qc * Z) : Prop :=
  (fst a < fst b)%Qc \/ (fst a = fst b /\ snd a < snd b).

(** The invariant of a registry: the records are in strictly ascending order
    of their keys, so that no two of them have the same key. *)
Definition strictly_sorted (l : list ShuffleMetadata) : Prop :=
  forall i j a b, (i < j)%nat -> l !! i = Some a -> l !! j = Some b ->
    key_lt (sort_key a) (sort_key b).

Definition unique_keys (l : list ShuffleMetadata) : Prop :=
  NoDup (sort_key <$> l).

(** A registry that the constructor accepts. *)
Definition valid (m : TrainingDatasetMetadata) : Prop :=
  TrainingDatasetMetadata_post_init m = Ok tt.

(** A list of records holds a record with the key of [s]. *)
Definition has_key (l : list ShuffleMetadata) (s : ShuffleMetadata) : Prop :=
  exists r, r ∈ l /\ sort_key r = sort_key s.

(** The records of a list whose key is not the key of [s]. *)
Definition others (l : list ShuffleMetadata) (s : ShuffleMetadata)
  : list ShuffleMetadata :=
  filter (fun r => sort_key r <> sort_key s) l.

(** [for shuffle, overwrite in calls: m = m.add(shuffle, overwrite)] *)
Definition add_all (m : TrainingDatasetMetadata)
    (calls : list (ShuffleMetadata * bool)) : result TrainingDatasetMetadata :=
  for_each (fun call m => add m (fst call) (snd call)) calls m.

(** The registries that the operations of the module return. *)
Inductive returned : TrainingDatasetMetadata -> Prop :=
| returned_new cfg l m :
    TrainingDatasetMetadata_new cfg l = Ok m -> returned m
| returned_add m0 shuffle overwrite m :
    add m0 shuffle overwrite = Ok m -> returned m
| returned_load aux cfg load_splits fs m :
    load aux cfg load_splits fs = Ok m -> returned m
| returned_create aux cfg fs listing m :
    create aux cfg fs listing = Ok m -> returned m
| returned_add_all m0 calls m :
    valid m0 -> add_all m0 calls = Ok m -> returned m.

(** The distinct values of a sequence, in the order of their first
    occurrence. *)
Definition distinct `{EqDecision K} (l : list K) : list K :=
  foldl (fun acc x => if decide (x ∈ acc) then acc else acc ++ [x]) [] l.

(** The 1-based id of a value in the first-encounter numbering of a
    sequence: [i] is the position of [x] among the distinct values. *)
Definition first_encounter_id `{EqDecision K} (l : list K) (x : K) (i : Z) : Prop :=
  1 <= i /\ distinct l !! Z.to_nat (i - 1) = Some x.

(** One assignment [metadata["shuffles"][s.name] = ...]. *)
Definition document_step (d : Document) (p : ShuffleMetadata * Z) : Document :=
  dict_set (name (fst p)) (entry_of (fst p) (snd p)) d.

(** The document that the assignments [metadata["shuffles"][s.name] = ...]
    build for records [rs] paired with split ids [ids]. *)
Definition document_of (rs : list ShuffleMetadata) (ids : list Z) : Document :=
  foldl document_step [] (zip rs ids).

(** A dict and the sequence of values interned in it so far. *)
Definition interned `{Countable K} (d : gmap K Z) (seen : list K) : Prop :=
  size d = length (distinct seen) /\
  forall x i, d !! x = Some i <-> first_encounter_id seen x i.

(** A record as [load] builds it from its entry: the split not loaded. *)
Definition unloaded (s : ShuffleMetadata) : ShuffleMetadata :=
  {| name := name s;
     train_fraction := train_fraction s;
     index := index s;
     engine := engine s;
     split := None |}.

(** What [load] does with a record once it is built from its entry. *)
Definition reloaded (aux : Auxiliary) (cfg : Config) (load_splits : bool)
    (fs : FileSystem) (s : ShuffleMetadata) : result ShuffleMetadata :=
  if load_splits then load_split aux (unloaded s) cfg (parent (path aux cfg)) fs
  else Ok (unloaded s).

(** The model folder that [find_engines_from_model_folders] expects for an
    engine, and whether it exists. *)
Definition expected_model_folder (aux : Auxiliary) (cfg : Config)
    (train_fraction_ : Qc) (shuffle : Z) (modelprefix : string) (e : Engine)
  : Path :=
  project_path cfg ++ get_model_folder aux train_fraction_ shuffle cfg e modelprefix.

Definition has_model_folder (aux : Auxiliary) (cfg : Config) (fs : FileSystem)
    (train_fraction_ : Qc) (shuffle : Z) (modelprefix : string) (e : Engine)
  : Prop :=
  exists_ fs (expected_model_folder aux cfg train_fraction_ shuffle modelprefix e)
    = true.

(** What [create] makes of one documentation file. *)
Definition migrated (aux : Auxiliary) (cfg : Config) (fs : FileSystem)
    (doc_path : Path) : result ShuffleMetadata :=
  index_ ← Names.int (Names.split_shuffle_last (Names.stem (path_name doc_path)));
  d ← pickle_load fs doc_path;
  split_ ← DataSplit_new (sorted_ints (doc_train_idx d))
                         (sorted_ints (doc_test_idx d));
  Ok {| name := shuffle_name aux cfg (doc_train_frac d) index_;
        train_fraction := doc_train_frac d;
        index := index_;
        engine := TF;
        split := Some split_ |}.

(** A path can be opened for writing: a file is there, or no entry is there
    and the folder of the path is. *)
Definition writable (fs : FileSystem) (p : Path) : Prop :=
  match fs !! p with
  | Some f => f <> Folder
  | None => fs !! parent p = Some Folder
  end.

(** ** Values used in the examples *)

Definition cfg0 : Config :=
  {| project_path := ["data"; "proj"];
     Task := "proj";
     date := "Jun17";
     TrainingFraction := [Q2Qc (3 # 5); Q2Qc (4 # 5)] |}.

Definition aux0 : Auxiliary :=
  {| get_data_and_metadata_filenames := fun trainset_path frac shuffle cfg =>
       (trainset_path ++ ["data" +:+ pretty shuffle],
        trainset_path ++ ["Documentation_data-" +:+ Task cfg +:+ "shuffle"
                            +:+ pretty shuffle +:+ ".pickle"]);
     get_training_set_folder := fun cfg => ["training-datasets"];
     get_model_folder := fun frac shuffle cfg engine_ modelprefix =>
       [modelprefix; primary_alias engine_; "shuffle" +:+ pretty shuffle];
     int_100_times := fun frac =>
       Z.quot (100 * Qnum (this frac)) (Z.pos (Qden (this frac))) |}.

Definition split_a : DataSplit := Build_DataSplit [1; 3; 4] [0; 2].
Definition split_b : DataSplit := Build_DataSplit [1; 2; 4] [0; 3].

Definition shuffle_a0 : ShuffleMetadata :=
  {| name := "a"; train_fraction := Q2Qc (3 # 5); index := 0;
     engine := TF; split := Some split_a |}.

Definition shuffle_b0 : ShuffleMetadata :=
  {| name := "b"; train_fraction := Q2Qc (3 # 5); index := 0;
     engine := PYTORCH; split := Some split_b |}.

Definition shuffle_a1 : ShuffleMetadata :=
  {| name := "a"; train_fraction := Q2Qc (3 # 5); index := 1;
     engine := PYTORCH; split := Some split_b |}.

Definition shuffle_b1 : ShuffleMetadata :=
  {| name := "b"; train_fraction := Q2Qc (3 # 5); index := 1;
     engine := PYTORCH; split := Some split_b |}.

Definition shuffle_c2 : ShuffleMetadata :=
  {| name := "c"; train_fraction := Q2Qc (3 # 5); index := 2;
     engine := TF; split := Some split_a |}.

Definition meta_three : TrainingDatasetMetadata :=
  Build_TrainingDatasetMetadata cfg0 [shuffle_a0; shuffle_b1; shuffle_c2].

Definition meta_empty : TrainingDatasetMetadata :=
  Build_TrainingDatasetMetadata cfg0 [].

Definition meta_a0 : TrainingDatasetMetadata :=
  Build_TrainingDatasetMetadata cfg0 [shuffle_a0].

Definition trainset0 : Path := ["data"; "proj"; "training-datasets"].

Definition doc_path0 : Path :=
  trainset0 ++ ["Documentation_data-projshuffle0.pickle"].

Definition shuffle_unloaded : ShuffleMetadata :=
  {| name := "a"; train_fraction := Q2Qc (3 # 5); index := 0;
     engine := TF; split := None |}.

(** A documentation file whose train indices repeat an index. *)
Definition fs_repeated : FileSystem :=
  {[ doc_path0 := Pickle {| doc_train_idx := [1; 1; 3];
                            doc_test_idx := [0; 2];
                            doc_train_frac := Q2Qc (3 # 5) |} ]}.

(** A documentation file with the indices in some order. *)
Definition fs_unordered : FileSystem :=
  {[ doc_path0 := Pickle {| doc_train_idx := [3; 1; 4];
                            doc_test_idx := [2; 0];
                            doc_train_frac := Q2Qc (3 # 5) |} ]}.

Definition metadata_path0 : Path := trainset0 ++ ["metadata.yaml"].

(** A project whose training-datasets folder is there, with nothing in
    it. *)
Definition fs_project : FileSystem := {[ trainset0 := Folder ]}.

Definition document0 : Document :=
  [("a", {| entry_train_fraction := Q2Qc (3 # 5); entry_index := 0;
            entry_split := 1; entry_engine := "tensorflow" |})].

(** A project with its metadata file, where shuffle 0 is a TensorFlow
    shuffle, and under the prefix "pre" a model folder of PyTorch only. *)
Definition fs_one_engine : FileSystem :=
  {[ metadata_path0 := Yaml document0;
     ["data"; "proj"; "pre"; "pytorch"; "shuffle0"] := Folder ]}.

(** The same project with model folders of both engines under "pre". *)
Definition fs_two_engines : FileSystem :=
  {[ metadata_path0 := Yaml document0;
     ["data"; "proj"; "pre"; "pytorch"; "shuffle0"] := Folder;
     ["data"; "proj"; "pre"; "tensorflow"; "shuffle0"] := Folder ]}.

(** A training-datasets folder of a project made before the metadata file
    existed: the documentation files of two shuffles and another file. *)
Definition fs_legacy : FileSystem :=
  {[ trainset0 ++ ["Documentation_data-proj_60shuffle2.pickle"] :=
       Pickle {| doc_train_idx := [0; 1]; doc_test_idx := [4; 3; 2];
                 doc_train_frac := Q2Qc (3 # 5) |};
     trainset0 ++ ["Documentation_data-proj_60shuffle1.pickle"] :=
       Pickle {| doc_train_idx := [3; 1; 4]; doc_test_idx := [2; 0];
                 doc_train_frac := Q2Qc (3 # 5) |};
     trainset0 ++ ["CollectedData_proj.csv"] := Other ]}.

Definition meta_legacy : TrainingDatasetMetadata :=
  Build_TrainingDatasetMetadata cfg0
    [ {| name := "projJun17-trainset60shuffle1";
         train_fraction := Q2Qc (3 # 5); index := 1; engine := TF;
         split := Some (Build_DataSplit [1; 3; 4] [0; 2]) |};
      {| name := "projJun17-trainset60shuffle2";
         train_fraction := Q2Qc (3 # 5); index := 2; engine := TF;
         split := Some (Build_DataSplit [0; 1] [2; 3; 4]) |} ].

(** The relations of a sort with a boolean [ltb] on keys. *)
Definition lt_by {A K} (ltb : K -> K -> bool) (key : A -> K) (x y : A) : Prop :=
  ltb (key x) (key y) = true.

Definition le_by {A K} (ltb : K -> K -> bool) (key : A -> K) (x y : A) : Prop :=
  ltb (key y) (key x) = false.


(** ** Further values used in the examples *)

Definition meta_a0_b1 : TrainingDatasetMetadata :=
  Build_TrainingDatasetMetadata cfg0 [shuffle_a0; shuffle_b1].

(** What [load] makes of one item of the document. *)
Definition entry_record (aux : Auxiliary) (cfg : Config) (load_splits : bool)
    (fs : FileSystem) (item : string * Entry) : result ShuffleMetadata :=
  engine_ ← Engine_of_alias (entry_engine (snd item));
  reloaded aux cfg load_splits fs
    {| name := fst item;
       train_fraction := entry_train_fraction (snd item);
       index := entry_index (snd item);
       engine := engine_;
       split := None |}.

(** The key of an item of the document. *)
Definition entry_key (item : string * Entry) : Qc * Z :=
  (entry_train_fraction (snd item), entry_index (snd item)).

(** The record that [update_metadata] adds, when its split is accepted. *)
Definition new_shuffle (aux : Auxiliary) (cfg : Config) (train_fraction_ : Qc)
    (shuffle : Z) (engine_ : Engine) (train_indices_ test_indices_ : list Z)
  : ShuffleMetadata :=
  {| name := shuffle_name aux cfg train_fraction_ shuffle;
     train_fraction := train_fraction_;
     index := shuffle;
     engine := engine_;
     split := Some (Build_DataSplit (sorted_ints train_indices_)
                                    (sorted_ints test_indices_)) |}.

(** The documentation file of an item of the document. *)
Definition entry_doc_path (aux : Auxiliary) (cfg : Config)
    (item : string * Entry) : Path :=
  snd (get_data_and_metadata_filenames aux (parent (path aux cfg))
         (entry_train_fraction (snd item)) (entry_index (snd item)) cfg).

(** A project with a metadata file without shuffles. *)
Definition fs_fresh : FileSystem := {[ metadata_path0 := Yaml [] ]}.

(** A project with one registered shuffle and its documentation file. *)
Definition fs_registered : FileSystem :=
  {[ trainset0 := Folder;
     metadata_path0 := Yaml document0;
     doc_path0 := Pickle {| doc_train_idx := [3; 1; 4];
                            doc_test_idx := [2; 0];
                            doc_train_frac := Q2Qc (3 # 5) |} ]}.

(** The project made before the metadata file existed, with its
    training-datasets folder as an entry. *)
Definition fs_legacy_project : FileSystem := <[trainset0 := Folder]> fs_legacy.

(** Whether a result is a value. *)
Definition returns {A} (r : result A) : bool :=
  match r with
  | Ok _ => true
  | Raise _ => false
  end.

(** The documentation files that [create] reads from a listing. *)
Definition shuffle_docs (listing : list Path) : list Path :=
  filter (fun f => Names.re_match (path_name f) = true) listing.

(** A training-datasets folder where two documentation files are of the same
    train fraction and shuffle index. *)
Definition fs_twice : FileSystem :=
  {[ trainset0 ++ ["Documentation_data-proj_60shuffle1.pickle"] :=
       Pickle {| doc_train_idx := [0; 1]; doc_test_idx := [2];
                 doc_train_frac := Q2Qc (3 # 5) |};
     trainset0 ++ ["Documentation_data-copy_60shuffle1.pickle"] :=
       Pickle {| doc_train_idx := [0; 2]; doc_test_idx := [1];
                 doc_train_frac := Q2Qc (3 # 5) |} ]}.

(** ** Names of documentation files, for the statements *)

Fixpoint digits_only (s : string) : bool :=
  match s with
  | EmptyString => true
  | String c s' => Names.is_digit c && digits_only s'
  end.

(** No character of the string is [c]. *)
Fixpoint free_of (c : ascii) (s : string) : bool :=
  match s with
  | EmptyString => true
  | String a s' => negb (Ascii.eqb a c) && free_of c s'
  end.

(** The number that a string of decimal digits denotes after [acc]. *)
Fixpoint number_of (s : string) (acc : Z) : Z :=
  match s with
  | EmptyString => acc
  | String c s' => number_of s' (10 * acc + Names.digit_value c)
  end.

(** The name of the documentation file of a shuffle: what identifies the
    project and the fraction, the index of the shuffle, and after the
    extension whatever [rest] is. *)
Definition documentation_name (x : string) (n : N) (rest : string) : string :=
  "Documentation_data-" +:+ x +:+ "shuffle" +:+ pretty n +:+ ".pickle" +:+ rest.

(** The first character of a string, if any, is no white space. *)
Definition starts_black (s : string) : Prop :=
  match s with
  | EmptyString => True
  | String c _ => Names.is_space c = false
  end.

(** * Theorems *)

(** ** Loops *)

Lemma for_each_check {A} (c : A -> bool) (e : error) (l : list A) :
  for_each (fun x (_ : unit) => if negb (c x) then Raise e else Ok tt) l tt =
  if forallb c l then Ok tt else Raise e.
Proof.
  induction l as [|x l IH]; [done|]. simpl.
  destruct (c x); simpl; [exact IH | done].
Qed.

Lemma for_each_cons {A S} (body : A -> S -> result S) x l s :
  for_each body (x :: l) s = body x s ≫= for_each body l.
Proof. reflexivity. Qed.

Lemma neighbours_cons2 {A} (x y : A) l :
  neighbours (x :: y :: l) = (x, y) :: neighbours (y :: l).
Proof. reflexivity. Qed.

Lemma neighbours_Sorted {A} (R : relation A) (l : list A) :
  Forall (fun p => R (fst p) (snd p)) (neighbours l) <-> Sorted R l.
Proof.
  induction l as [|x [|y l] IH].
  - split; constructor.
  - split; [repeat constructor | constructor].
  - rewrite neighbours_cons2, Forall_cons_iff, IH. simpl. split.
    + intros [Hxy Hs]. constructor; [done | by constructor].
    + intros Hs. inversion Hs as [|? ? Hs' Hhd]; subst.
      by inversion Hhd; subst.
Qed.

Lemma neighbours_StronglySorted {A} (R : relation A) `{!Transitive R} l :
  Forall (fun p => R (fst p) (snd p)) (neighbours l) <-> StronglySorted R l.
Proof.
  rewrite neighbours_Sorted. split.
  - by apply Sorted_StronglySorted.
  - apply StronglySorted_Sorted.
Qed.

Lemma StronglySorted_lookup {A} (R : relation A) (l : list A) :
  StronglySorted R l <->
  forall i j a b, (i < j)%nat -> l !! i = Some a -> l !! j = Some b -> R a b.
Proof.
  induction l as [|x l IH].
  - split; [|constructor]. intros _ i j a b _ Hi. by rewrite lookup_nil in Hi.
  - rewrite StronglySorted_cons, IH, Forall_lookup. split.
    + intros [Hall H] i j a b Hij Hi Hj.
      destruct j as [|j]; [lia|]. destruct i as [|i]; simpl in *.
      * injection Hi as <-. eauto.
      * apply (H i j); [lia | done | done].
    + intros H. split.
      * intros j y Hj. apply (H 0%nat (S j)); [lia | done | done].
      * intros i j a b Hij Hi Hj. apply (H (S i) (S j)); [lia | done | done].
Qed.

(** ** Sorting *)

Section sorted_facts.
Context {A K : Type} (ltb : K -> K -> bool) (key : A -> K).
Hypothesis ltb_irrefl : forall a, ltb a a = false.
Hypothesis ltb_trans :
  forall a b c, ltb a b = true -> ltb b c = true -> ltb a c = true.
Hypothesis ltb_total : forall a b, ltb a b = false -> ltb b a = false -> a = b.


Lemma ltb_asym a b : ltb a b = true -> ltb b a = false.
Proof.
  intros Hab. destruct (ltb b a) eqn:Hba; [|done].
  pose proof (ltb_trans a b a Hab Hba) as Haa.
  by rewrite ltb_irrefl in Haa.
Qed.

Lemma ltb_cotrans a b c : ltb a c = true -> ltb a b = true \/ ltb b c = true.
Proof.
  intros Hac. destruct (ltb a b) eqn:Hab; [by left|].
  destruct (ltb b c) eqn:Hbc; [by right|]. exfalso.
  destruct (ltb b a) eqn:Hba.
  - pose proof (ltb_trans b a c Hba Hac). congruence.
  - rewrite (ltb_total a b Hab Hba) in Hac. congruence.
Qed.

Lemma lt_by_trans : Transitive (lt_by ltb key).
Proof. intros x y z. unfold lt_by. apply ltb_trans. Qed.

Lemma insort_perm x l : insort ltb key x l ≡ₚ x :: l.
Proof.
  induction l as [|y l IH]; [done|]. simpl.
  destruct (ltb (key y) (key x)); [|done].
  by rewrite IH, Permutation_swap.
Qed.

Lemma sorted_perm l : sorted ltb key l ≡ₚ l.
Proof.
  induction l as [|x l IH]; [done|]. simpl.
  by rewrite insort_perm, IH.
Qed.

Lemma insort_le x l :
  StronglySorted (le_by ltb key) l -> StronglySorted (le_by ltb key) (insort ltb key x l).
Proof.
  induction l as [|y l IH]; intros Hs.
  - simpl. by repeat constructor.
  - simpl. apply StronglySorted_cons in Hs as [Hall Hs].
    destruct (ltb (key y) (key x)) eqn:Hyx.
    + apply StronglySorted_cons. split; [|by apply IH].
      rewrite insort_perm. constructor; [|done].
      unfold le_by. by apply ltb_asym.
    + apply StronglySorted_cons. split; [|by apply StronglySorted_cons].
      constructor; [done|].
      eapply Forall_impl; [|exact Hall]. unfold le_by. intros z Hzy.
      destruct (ltb (key z) (key x)) eqn:Hzx; [|done].
      destruct (ltb_cotrans _ (key y) _ Hzx); congruence.
Qed.

Lemma sorted_le l : StronglySorted (le_by ltb key) (sorted ltb key l).
Proof.
  induction l as [|x l IH]; [constructor|]. simpl. by apply insort_le.
Qed.

Lemma lt_NoDup l : StronglySorted (lt_by ltb key) l -> NoDup (key <$> l).
Proof.
  induction 1 as [|x l Hs IH Hall]; [constructor|].
  rewrite fmap_cons. constructor; [|done].
  rewrite list_elem_of_fmap. intros [y [Hxy Hy]].
  rewrite list.Forall_forall in Hall. specialize (Hall y Hy).
  unfold lt_by in Hall. by rewrite <- Hxy, ltb_irrefl in Hall.
Qed.

Lemma le_NoDup_lt l :
  StronglySorted (le_by ltb key) l -> NoDup (key <$> l) -> StronglySorted (lt_by ltb key) l.
Proof.
  induction 1 as [|x l Hs IH Hall]; [constructor|].
  rewrite fmap_cons, list.NoDup_cons. intros [Hx Hnd].
  constructor; [by apply IH|].
  rewrite list.Forall_forall in Hall |- *. intros y Hy.
  specialize (Hall y Hy). unfold le_by in Hall. unfold lt_by.
  destruct (ltb (key x) (key y)) eqn:Hxy; [done|]. exfalso. apply Hx.
  rewrite (ltb_total _ _ Hxy Hall). by apply list_elem_of_fmap_2.
Qed.

Lemma lt_le l : StronglySorted (lt_by ltb key) l -> StronglySorted (le_by ltb key) l.
Proof.
  induction 1 as [|x l Hs IH Hall]; constructor; [done|].
  eapply Forall_impl; [|exact Hall]. intros y. unfold lt_by, le_by.
  apply ltb_asym.
Qed.

Lemma sorted_id l : StronglySorted (le_by ltb key) l -> sorted ltb key l = l.
Proof.
  induction 1 as [|x l Hs IH Hall]; [done|]. simpl. rewrite IH.
  destruct Hall as [|y l Hxy _]; [done|]. simpl.
  unfold le_by in Hxy. by rewrite Hxy.
Qed.

Lemma sorted_NoDup_lt l :
  NoDup (key <$> l) -> StronglySorted (lt_by ltb key) (sorted ltb key l).
Proof.
  intros Hnd. apply le_NoDup_lt; [apply sorted_le|].
  by rewrite sorted_perm.
Qed.

Lemma sorted_lt_NoDup l :
  StronglySorted (lt_by ltb key) (sorted ltb key l) -> NoDup (key <$> l).
Proof. intros Hs. rewrite <- sorted_perm. by apply lt_NoDup. Qed.

Lemma lt_unique l1 l2 :
  StronglySorted (lt_by ltb key) l1 -> StronglySorted (lt_by ltb key) l2 -> l1 ≡ₚ l2 -> l1 = l2.
Proof.
  apply StronglySorted_unique_strong. unfold lt_by.
  intros x y _ _ Hxy Hyx. rewrite (ltb_asym _ _ Hxy) in Hyx. done.
Qed.

Lemma sorted_perm_eq l1 l2 :
  l1 ≡ₚ l2 -> NoDup (key <$> l1) -> sorted ltb key l1 = sorted ltb key l2.
Proof.
  intros Hp Hnd. apply lt_unique.
  - by apply sorted_NoDup_lt.
  - apply sorted_NoDup_lt. by rewrite <- Hp.
  - by rewrite !sorted_perm.
Qed.

End sorted_facts.

(** ** The order of the keys *)

Lemma frac_lt_spec a b : frac_lt a b = true <-> (a < b)%Qc.
Proof. unfold frac_lt. apply bool_decide_eq_true. Qed.

Lemma frac_eq_spec a b : frac_eq a b = true <-> a = b.
Proof. unfold frac_eq. apply bool_decide_eq_true. Qed.

Lemma Qclt_irrefl (a : Qc) : ~ (a < a)%Qc.
Proof. intros H. by apply Qclt_not_eq in H. Qed.

Lemma tuple_lt_spec a b : tuple_lt a b = true <-> key_lt a b.
Proof.
  unfold tuple_lt, key_lt. destruct a as [f1 i1], b as [f2 i2]. simpl.
  destruct (frac_eq f1 f2) eqn:Hf; simpl.
  - apply frac_eq_spec in Hf as ->.
    destruct (Z.eqb_spec i1 i2) as [->|Hne]; simpl.
    + split; [done|]. intros [H|[_ H]]; [by apply Qclt_irrefl in H | lia].
    + rewrite Z.ltb_lt. split; [by right|].
      intros [H|[_ H]]; [by apply Qclt_irrefl in H | done].
  - rewrite frac_lt_spec. split; [by left|].
    intros [H|[H _]]; [done|]. apply frac_eq_spec in H. congruence.
Qed.

Lemma in_order_spec a b : in_order a b = true <-> key_lt a b.
Proof.
  unfold in_order, key_lt. destruct a as [f1 i1], b as [f2 i2]. simpl.
  by rewrite orb_true_iff, andb_true_iff, frac_lt_spec, frac_eq_spec, Z.ltb_lt.
Qed.

Lemma in_order_tuple_lt a b : in_order a b = tuple_lt a b.
Proof.
  apply eq_true_iff_eq. by rewrite in_order_spec, tuple_lt_spec.
Qed.

Lemma key_lt_irrefl a : ~ key_lt a a.
Proof. intros [H|[_ H]]; [by apply Qclt_irrefl in H | lia]. Qed.

Lemma key_lt_trans a b c : key_lt a b -> key_lt b c -> key_lt a c.
Proof.
  unfold key_lt. intros [H1|[H1 H1']] [H2|[H2 H2']].
  - left. by eapply Qclt_trans.
  - left. by rewrite <- H2.
  - left. by rewrite H1.
  - right. split; [congruence | lia].
Qed.

Lemma key_lt_total a b : ~ key_lt a b -> ~ key_lt b a -> a = b.
Proof.
  unfold key_lt. destruct a as [f1 i1], b as [f2 i2]. simpl. intros H1 H2.
  destruct (Qc_dec f1 f2) as [[H|H]|H]; [tauto | tauto |]. subst f2.
  assert (i1 = i2) as -> by (destruct (Z.lt_total i1 i2) as [|[|]]; tauto).
  done.
Qed.

Lemma tuple_lt_irrefl a : tuple_lt a a = false.
Proof.
  apply not_true_iff_false. rewrite tuple_lt_spec. apply key_lt_irrefl.
Qed.

Lemma tuple_lt_trans a b c :
  tuple_lt a b = true -> tuple_lt b c = true -> tuple_lt a c = true.
Proof. rewrite !tuple_lt_spec. apply key_lt_trans. Qed.

Lemma tuple_lt_total a b : tuple_lt a b = false -> tuple_lt b a = false -> a = b.
Proof.
  rewrite <- !not_true_iff_false, !tuple_lt_spec. apply key_lt_total.
Qed.

Lemma Z_ltb_trans (a b c : Z) : (a <? b) = true -> (b <? c) = true -> (a <? c) = true.
Proof. rewrite !Z.ltb_lt. lia. Qed.

Lemma Z_ltb_total (a b : Z) : (a <? b) = false -> (b <? a) = false -> a = b.
Proof. rewrite !Z.ltb_ge. lia. Qed.

(** ** The checks of the two constructors *)

Lemma neighbours_fmap {A B} (f : A -> B) (l : list A) :
  neighbours (f <$> l) = (fun p => (f (fst p), f (snd p))) <$> neighbours l.
Proof.
  induction l as [|x [|y l] IH]; [done | done |].
  rewrite !fmap_cons, neighbours_cons2. rewrite <- fmap_cons, IH.
  by rewrite neighbours_cons2.
Qed.

Lemma forallb_neighbours {A} (c : A -> A -> bool) (l : list A) :
  (forall x y z, c x y = true -> c y z = true -> c x z = true) ->
  forallb (fun p => c (fst p) (snd p)) (neighbours l) = true <->
  forall i j a b, (i < j)%nat -> l !! i = Some a -> l !! j = Some b -> c a b = true.
Proof.
  intros Htrans. rewrite forallb_forall, <- List.Forall_forall.
  rewrite <- (StronglySorted_lookup (fun a b => c a b = true)).
  apply (neighbours_StronglySorted (fun a b => c a b = true)
           (Transitive0 := Htrans)).
Qed.

Lemma np_all_lt_spec l : np_all_lt l = true <-> strictly_ascending l.
Proof.
  unfold np_all_lt, strictly_ascending.
  rewrite (forallb_neighbours Z.ltb l Z_ltb_trans).
  by setoid_rewrite Z.ltb_lt.
Qed.

Lemma DataSplit_new_cases train test :
  DataSplit_new train test =
  if np_all_lt train && np_all_lt test
  then Ok (Build_DataSplit train test) else Raise InvalidSplit.
Proof.
  unfold DataSplit_new, DataSplit_post_init. simpl.
  destruct (np_all_lt train), (np_all_lt test); reflexivity.
Qed.

Lemma post_init_cases m :
  TrainingDatasetMetadata_post_init m =
  if forallb (fun p => in_order (fst p) (snd p))
             (neighbours (sort_key <$> shuffles m))
  then Ok tt else Raise UnsortedShuffles.
Proof. unfold TrainingDatasetMetadata_post_init. apply for_each_check. Qed.

Lemma strictly_sorted_StronglySorted l :
  strictly_sorted l <-> StronglySorted (lt_by tuple_lt sort_key) l.
Proof.
  rewrite StronglySorted_lookup. unfold strictly_sorted, lt_by.
  by setoid_rewrite tuple_lt_spec.
Qed.

Lemma valid_spec m : valid m <-> strictly_sorted (shuffles m).
Proof.
  unfold valid. rewrite post_init_cases.
  set (b := forallb _ _).
  assert (b = true <-> strictly_sorted (shuffles m)) as Hb.
  { unfold b. rewrite neighbours_fmap, forallb_forall, <- List.Forall_forall.
    rewrite Forall_fmap. unfold compose. simpl.
    rewrite strictly_sorted_StronglySorted.
    rewrite <- (neighbours_StronglySorted (lt_by tuple_lt sort_key)
                  (Transitive0 := lt_by_trans tuple_lt sort_key tuple_lt_trans)).
    apply Forall_proper; [|done]. intros p. unfold lt_by.
    by rewrite <- in_order_tuple_lt. }
  destruct b; split; intros H; try done.
  - by apply Hb.
  - apply Hb in H. done.
Qed.

Lemma new_cases cfg l :
  (strictly_sorted l /\
   TrainingDatasetMetadata_new cfg l = Ok (Build_TrainingDatasetMetadata cfg l)) \/
  (~ strictly_sorted l /\
   TrainingDatasetMetadata_new cfg l = Raise UnsortedShuffles).
Proof.
  unfold TrainingDatasetMetadata_new.
  pose proof (valid_spec (Build_TrainingDatasetMetadata cfg l)) as Hv.
  unfold valid in Hv. rewrite post_init_cases in *. simpl in *.
  destruct (forallb _ _); simpl.
  - left. split; [by apply Hv | done].
  - right. split; [|done]. intros H. apply Hv in H. done.
Qed.

Lemma new_Ok cfg l :
  strictly_sorted l ->
  TrainingDatasetMetadata_new cfg l = Ok (Build_TrainingDatasetMetadata cfg l).
Proof. intros H. destruct (new_cases cfg l) as [[_ ?]|[? _]]; done. Qed.

Lemma new_inv cfg l m :
  TrainingDatasetMetadata_new cfg l = Ok m ->
  m = Build_TrainingDatasetMetadata cfg l /\ strictly_sorted l.
Proof.
  intros H. destruct (new_cases cfg l) as [[? H']|[_ H']]; rewrite H' in H.
  - by injection H as <-.
  - done.
Qed.

Lemma strictly_sorted_unique_keys l : strictly_sorted l -> unique_keys l.
Proof.
  rewrite strictly_sorted_StronglySorted. apply lt_NoDup, tuple_lt_irrefl.
Qed.

Lemma sorted_shuffles_strict l :
  unique_keys l -> strictly_sorted (sorted_shuffles l).
Proof.
  intros H. apply strictly_sorted_StronglySorted.
  by apply sorted_NoDup_lt; [apply tuple_lt_irrefl | apply tuple_lt_trans
                            | apply tuple_lt_total |].
Qed.

Lemma sorted_shuffles_perm l : sorted_shuffles l ≡ₚ l.
Proof. apply sorted_perm. Qed.

(** ** DataSplit *)

(** C3. Constructing a [DataSplit] fails with [InvalidSplit] if and only if
    the train indices or the test indices are not strictly ascending, and it
    succeeds if and only if both are; a split that is constructed holds the
    two sequences as they were given: the constructor validates, it does not
    reorder or repair. *)
Theorem DataSplit_new_validates (train test : list Z) :
  (DataSplit_new train test = Raise InvalidSplit <->
   ~ strictly_ascending train \/ ~ strictly_ascending test) /\
  (DataSplit_new train test = Ok (Build_DataSplit train test) <->
   strictly_ascending train /\ strictly_ascending test) /\
  (forall d, DataSplit_new train test = Ok d ->
             train_indices d = train /\ test_indices d = test).
Proof.
  rewrite DataSplit_new_cases, <- !np_all_lt_spec.
  destruct (np_all_lt train), (np_all_lt test); simpl;
    (split; [|split]); try (intros d [= <-]; done); try done;
    split; try done; intuition congruence.
Qed.

(** C10. A [DataSplit] whose train indices and test indices have at most one
    element each is constructed: the check of the order holds for sequences
    of length zero and one, so empty and singleton splits are values. *)
Theorem DataSplit_new_short (train test : list Z) :
  (length train <= 1)%nat -> (length test <= 1)%nat ->
  DataSplit_new train test = Ok (Build_DataSplit train test).
Proof.
  intros H1 H2. rewrite DataSplit_new_cases.
  destruct train as [|x [|? ?]]; destruct test as [|y [|? ?]];
    simpl in *; try lia; reflexivity.
Qed.

Lemma DataSplit_new_short_witness :
  (length (@nil Z) <= 1)%nat /\ (length [7] <= 1)%nat /\
  DataSplit_new [] [7] = Ok (Build_DataSplit [] [7]).
Proof.
  split; [simpl; lia|]. split; [simpl; lia|].
  apply (DataSplit_new_short [] [7]); simpl; lia.
Defined.

(** ** add *)

Lemma sort_key_eq r s :
  sort_key r = sort_key s <-> train_fraction r = train_fraction s /\ index r = index s.
Proof. unfold sort_key. split; [by intros [= -> ->] | by intros [-> ->]]. Qed.

Lemma existing_indices_spec l s :
  index s ∈ index <$> filter (fun r => train_fraction r = train_fraction s) l <->
  has_key l s.
Proof.
  unfold has_key. rewrite list_elem_of_fmap. split.
  - intros [r [Hi [Hr Hf]%list_elem_of_filter]]. exists r.
    split; [done|]. by apply sort_key_eq.
  - intros [r [Hr [Hf Hi]%sort_key_eq]]. exists r. split; [done|].
    by apply list_elem_of_filter.
Qed.

Lemma existing_shuffles_eq l s :
  filter (fun r => index r <> index s \/ train_fraction r <> train_fraction s) l =
  others l s.
Proof.
  unfold others. apply list_filter_iff. intros r. rewrite sort_key_eq.
  destruct (decide (index r = index s)), (decide (train_fraction r = train_fraction s));
    tauto.
Qed.

Lemma add_duplicate m s :
  has_key (shuffles m) s -> add m s false = Raise DuplicateShuffle.
Proof.
  intros H. unfold add.
  rewrite bool_decide_eq_true_2 by (by apply existing_indices_spec). done.
Qed.

Lemma add_proceeds m s overwrite :
  overwrite = true \/ ~ has_key (shuffles m) s ->
  add m s overwrite =
  TrainingDatasetMetadata_new (project_config m)
    (sorted_shuffles (others (shuffles m) s ++ [s])).
Proof.
  intros H. unfold add. rewrite existing_shuffles_eq.
  destruct H as [-> | H].
  - by rewrite andb_false_r.
  - rewrite bool_decide_eq_false_2; [done|]. by rewrite existing_indices_spec.
Qed.

Lemma add_inv m s overwrite m' :
  add m s overwrite = Ok m' ->
  m' = Build_TrainingDatasetMetadata (project_config m)
         (sorted_shuffles (others (shuffles m) s ++ [s])) /\
  strictly_sorted (shuffles m').
Proof.
  unfold add. rewrite existing_shuffles_eq.
  destruct (_ && _); [done|]. intros [-> H]%new_inv. done.
Qed.

Lemma others_unique_keys l s :
  unique_keys l -> unique_keys (others l s ++ [s]).
Proof.
  unfold unique_keys, others. intros H.
  rewrite fmap_app. apply list.NoDup_app. split; [|split].
  - eapply sublist_NoDup; [exact H | apply fmap_sublist, sublist_filter].
  - intros k [r [-> [Hr _]%list_elem_of_filter]]%list_elem_of_fmap.
    simpl. rewrite list_elem_of_singleton. done.
  - apply NoDup_singleton.
Qed.

Lemma others_no_key l s : ~ has_key l s -> others l s = l.
Proof.
  unfold others, has_key. induction l as [|r l IH]; intros H; [done|].
  rewrite filter_cons. destruct (decide (sort_key r <> sort_key s)) as [_|Hr].
  - f_equal. apply IH. intros [r' [Hr' ?]]. apply H. exists r'.
    split; [by right | done].
  - destruct H. exists r. split; [by left|].
    destruct (decide (sort_key r = sort_key s)); tauto.
Qed.

Lemma add_Ok m s overwrite :
  valid m -> overwrite = true \/ ~ has_key (shuffles m) s ->
  add m s overwrite =
  Ok (Build_TrainingDatasetMetadata (project_config m)
        (sorted_shuffles (others (shuffles m) s ++ [s]))).
Proof.
  intros Hv H. rewrite add_proceeds by done. apply new_Ok.
  apply sorted_shuffles_strict, others_unique_keys, strictly_sorted_unique_keys.
  by apply valid_spec.
Qed.

Lemma sorted_others_perm l s : sorted_shuffles (others l s ++ [s]) ≡ₚ s :: others l s.
Proof. by rewrite sorted_shuffles_perm, Permutation_app_comm. Qed.

Lemma bind_Ok {A B} (r : result A) (k : A -> result B) (b : B) :
  r ≫= k = Ok b -> exists a, r = Ok a /\ k a = Ok b.
Proof. destruct r as [a|e]; [by exists a | done]. Qed.

(** C1. On a registry that holds a record with the key
    [(train_fraction, index)] of the new record, [add] without [overwrite]
    fails with [DuplicateShuffle], and [add] with [overwrite] returns a
    registry whose records are the new record and the old records of other
    keys: the old record of that key is gone.  On a registry without such a
    record [add] succeeds whatever the flag, and the records of the result
    are the new record and the old ones.  In both cases the result is in
    ascending order of the keys. *)
Theorem add_overwrite (m : TrainingDatasetMetadata) (s : ShuffleMetadata) :
  valid m ->
  (has_key (shuffles m) s ->
     add m s false = Raise DuplicateShuffle /\
     exists m', add m s true = Ok m' /\
       project_config m' = project_config m /\
       shuffles m' ≡ₚ s :: others (shuffles m) s /\
       (forall r, r ∈ shuffles m' -> sort_key r = sort_key s -> r = s) /\
       strictly_sorted (shuffles m')) /\
  (~ has_key (shuffles m) s ->
     forall overwrite, exists m', add m s overwrite = Ok m' /\
       project_config m' = project_config m /\
       shuffles m' ≡ₚ s :: shuffles m /\
       strictly_sorted (shuffles m')).
Proof.
  intros Hv. split.
  - intros Hk. split; [by apply add_duplicate|].
    eexists. split; [apply add_Ok; [done | by left]|]. simpl.
    split; [done|]. split; [apply sorted_others_perm|]. split.
    + intros r Hr Hrs. rewrite sorted_others_perm in Hr.
      apply elem_of_cons in Hr as [->|Hr]; [done|].
      by apply list_elem_of_filter in Hr as [Hne _].
    + apply sorted_shuffles_strict, others_unique_keys,
        strictly_sorted_unique_keys. by apply valid_spec.
  - intros Hk overwrite.
    eexists. split; [apply add_Ok; [done | by right]|]. simpl.
    split; [done|]. split.
    + by rewrite sorted_others_perm, others_no_key.
    + apply sorted_shuffles_strict, others_unique_keys,
        strictly_sorted_unique_keys. by apply valid_spec.
Qed.

Lemma add_overwrite_witness :
  valid meta_a0 /\ add meta_a0 shuffle_b0 false = Raise DuplicateShuffle.
Proof.
  split; [reflexivity|].
  apply (add_overwrite meta_a0 shuffle_b0); [reflexivity|].
  exists shuffle_a0. split; [by left | reflexivity].
Defined.

(** ** The invariant *)

Lemma load_inv aux cfg load_splits fs m :
  load aux cfg load_splits fs = Ok m -> strictly_sorted (shuffles m).
Proof.
  unfold load. intros [metadata [_ H]]%bind_Ok.
  apply bind_Ok in H as [l [_ H]]. by apply new_inv in H as [-> H].
Qed.

Lemma create_inv aux cfg fs listing m :
  create aux cfg fs listing = Ok m -> strictly_sorted (shuffles m).
Proof.
  unfold create. intros [st [_ H]]%bind_Ok. by apply new_inv in H as [-> H].
Qed.

Lemma add_all_inv calls m0 m :
  valid m0 -> add_all m0 calls = Ok m -> strictly_sorted (shuffles m).
Proof.
  unfold add_all. revert m0. induction calls as [|c calls IH]; intros m0 Hv.
  - intros [= <-]. by apply valid_spec.
  - simpl. intros [m1 [H1 H]]%bind_Ok. apply (IH m1); [|done].
    apply valid_spec. by apply add_inv in H1 as [_ ?].
Qed.

(** A sequence of [add] calls with [overwrite] always goes through. *)
Lemma add_all_overwrite_Ok calls m0 :
  valid m0 -> Forall (fun call => snd call = true) calls ->
  is_Ok (add_all m0 calls).
Proof.
  unfold add_all. revert m0. induction calls as [|c calls IH]; intros m0 Hv Hall.
  - by exists m0.
  - apply list.Forall_cons in Hall as [Hc Hall]. simpl.
    rewrite add_Ok by (done || by left). simpl. apply IH; [|done].
    apply valid_spec. simpl.
    apply sorted_shuffles_strict, others_unique_keys,
      strictly_sorted_unique_keys. by apply valid_spec.
Qed.

(** C2. Every registry returned by the constructor, by [add], by [load], by
    [create], or by a sequence of [add] calls from a registry that the
    constructor accepts, has its records in strictly ascending order of the
    key [(train_fraction, index)], and no two of its records have the same
    key. *)
Theorem returned_sorted_unique (m : TrainingDatasetMetadata) :
  returned m -> strictly_sorted (shuffles m) /\ unique_keys (shuffles m).
Proof.
  intros H.
  assert (strictly_sorted (shuffles m)) as Hs.
  { destruct H as [cfg l m H | m0 s o m H | aux cfg ls fs m H
                  | aux cfg fs listing m H | m0 calls m Hv H].
    - by apply new_inv in H as [-> H].
    - by apply add_inv in H as [_ H].
    - by eapply load_inv.
    - by eapply create_inv.
    - by eapply add_all_inv. }
  split; [done | by apply strictly_sorted_unique_keys].
Qed.

Lemma returned_sorted_unique_witness :
  returned (Build_TrainingDatasetMetadata cfg0 [shuffle_a0; shuffle_a1]) /\
  strictly_sorted [shuffle_a0; shuffle_a1] /\
  unique_keys [shuffle_a0; shuffle_a1].
Proof.
  assert (returned (Build_TrainingDatasetMetadata cfg0 [shuffle_a0; shuffle_a1]))
    as H.
  { apply (returned_add_all meta_empty [(shuffle_a1, false); (shuffle_a0, false)]);
      reflexivity. }
  split; [exact H|].
  exact (returned_sorted_unique _ H).
Defined.

(** ** load_split *)

Lemma sorted_ints_perm l : sorted_ints l ≡ₚ l.
Proof. apply sorted_perm. Qed.

Lemma np_all_lt_StronglySorted l :
  np_all_lt l = true <-> StronglySorted (lt_by Z.ltb id) l.
Proof.
  rewrite np_all_lt_spec, StronglySorted_lookup.
  unfold strictly_ascending, lt_by, id. by setoid_rewrite Z.ltb_lt.
Qed.

Lemma np_all_lt_sorted_ints l : np_all_lt (sorted_ints l) = true <-> NoDup l.
Proof.
  rewrite np_all_lt_StronglySorted. unfold sorted_ints. split.
  - intros H. apply sorted_lt_NoDup in H; [|apply Z.ltb_irrefl].
    by rewrite list_fmap_id in H.
  - intros H. apply sorted_NoDup_lt;
      [apply Z.ltb_irrefl | apply Z_ltb_trans | apply Z_ltb_total |].
    by rewrite list_fmap_id.
Qed.

Lemma load_split_counterexample :
  exists_ fs_repeated doc_path0 = true /\
  snd (get_data_and_metadata_filenames aux0 trainset0
         (train_fraction shuffle_unloaded) (index shuffle_unloaded) cfg0)
    = doc_path0 /\
  load_split aux0 shuffle_unloaded cfg0 trainset0 fs_repeated
    = Raise InvalidSplit.
Proof. split; [|split]; reflexivity. Qed.

(** C4, amended.  [load_split] fails with [SplitFileMissing] when there is
    no file at the documentation path of the record's
    [(train_fraction, index)].  When the file holds a pickled documentation
    tuple, the train and test indices are sorted, and nothing else: with no
    index repeated in either collection the result is the record with the
    same name, fraction, index and engine and with the split of the sorted
    indices; with an index repeated, the construction of the split fails
    with [InvalidSplit]. *)
Theorem load_split_sorts (aux : Auxiliary) (self : ShuffleMetadata)
    (cfg : Config) (trainset_path : Path) (fs : FileSystem) (doc_path : Path) :
  doc_path = snd (get_data_and_metadata_filenames aux trainset_path
                    (train_fraction self) (index self) cfg) ->
  (fs !! doc_path = None ->
     load_split aux self cfg trainset_path fs = Raise SplitFileMissing) /\
  (forall d, fs !! doc_path = Some (Pickle d) ->
     sorted_ints (doc_train_idx d) ≡ₚ doc_train_idx d /\
     sorted_ints (doc_test_idx d) ≡ₚ doc_test_idx d /\
     (NoDup (doc_train_idx d) /\ NoDup (doc_test_idx d) ->
        strictly_ascending (sorted_ints (doc_train_idx d)) /\
        strictly_ascending (sorted_ints (doc_test_idx d)) /\
        load_split aux self cfg trainset_path fs =
        Ok {| name := name self;
              train_fraction := train_fraction self;
              index := index self;
              engine := engine self;
              split := Some (Build_DataSplit (sorted_ints (doc_train_idx d))
                                             (sorted_ints (doc_test_idx d))) |}) /\
     (~ (NoDup (doc_train_idx d) /\ NoDup (doc_test_idx d)) ->
        load_split aux self cfg trainset_path fs = Raise InvalidSplit)).
Proof.
  intros ->. unfold load_split, exists_, pickle_load. split.
  - intros ->. by rewrite bool_decide_eq_false_2 by (by intros [? ?]).
  - intros d ->. rewrite bool_decide_eq_true_2 by eauto. simpl.
    split; [apply sorted_ints_perm|]. split; [apply sorted_ints_perm|].
    rewrite DataSplit_new_cases.
    pose proof (np_all_lt_sorted_ints (doc_train_idx d)) as H1.
    pose proof (np_all_lt_sorted_ints (doc_test_idx d)) as H2.
    rewrite <- !np_all_lt_spec.
    destruct (np_all_lt (sorted_ints (doc_train_idx d)));
      destruct (np_all_lt (sorted_ints (doc_test_idx d))); simpl;
      split; try done; intros H; by destruct H; intuition.
Qed.

Lemma load_split_sorts_witness :
  load_split aux0 shuffle_unloaded cfg0 trainset0 fs_unordered =
  Ok {| name := "a"; train_fraction := Q2Qc (3 # 5); index := 0; engine := TF;
        split := Some (Build_DataSplit [1; 3; 4] [0; 2]) |}.
Proof.
  destruct (load_split_sorts aux0 shuffle_unloaded cfg0 trainset0 fs_unordered
              doc_path0 eq_refl) as [_ H].
  destruct (H {| doc_train_idx := [3; 1; 4]; doc_test_idx := [2; 0];
                 doc_train_frac := Q2Qc (3 # 5) |}) as (_ & _ & Hok & _).
  - vm_compute. reflexivity.
  - apply Hok. split; apply (bool_decide_unpack _); vm_compute; exact I.
Defined.

(** ** Interning *)

Section interning.
Context `{Countable K}.

Lemma distinct_snoc (l : list K) x :
  distinct (l ++ [x]) =
  if decide (x ∈ distinct l) then distinct l else distinct l ++ [x].
Proof. unfold distinct. by rewrite foldl_app. Qed.

Lemma elem_of_distinct (l : list K) x : x ∈ distinct l <-> x ∈ l.
Proof.
  induction l as [|y l IH] using rev_ind.
  - done.
  - rewrite distinct_snoc, elem_of_app, list_elem_of_singleton.
    case_decide as Hy; [|rewrite elem_of_app, list_elem_of_singleton]; split.
    + tauto.
    + intros [?| ->]; tauto.
    + tauto.
    + tauto.
Qed.

Lemma NoDup_distinct (l : list K) : NoDup (distinct l).
Proof.
  induction l as [|y l IH] using rev_ind; [constructor|].
  rewrite distinct_snoc. case_decide as Hy; [done|].
  apply list.NoDup_app. split; [done|]. split; [|apply NoDup_singleton].
  intros x Hx ->%list_elem_of_singleton. done.
Qed.

Lemma distinct_prefix (l l' : list K) : distinct l `prefix_of` distinct (l ++ l').
Proof.
  induction l' as [|y l' IH] using rev_ind.
  - by rewrite app_nil_r.
  - rewrite app_assoc, distinct_snoc. case_decide; [done|].
    by apply prefix_app_r.
Qed.

Lemma first_encounter_id_app (l l' : list K) x i :
  first_encounter_id l x i -> first_encounter_id (l ++ l') x i.
Proof.
  intros [Hi Hx]. split; [done|].
  by eapply prefix_lookup_Some; [|apply distinct_prefix].
Qed.

Lemma first_encounter_id_inj (l : list K) x y i j :
  first_encounter_id l x i -> first_encounter_id l y j -> (i = j <-> x = y).
Proof.
  intros [Hi Hx] [Hj Hy]. split.
  - intros ->. congruence.
  - intros ->.
    pose proof (NoDup_lookup _ _ _ _ (NoDup_distinct l) Hx Hy). lia.
Qed.

Lemma first_encounter_id_elem (l : list K) x i :
  first_encounter_id l x i -> x ∈ l.
Proof.
  intros [_ Hx]. apply elem_of_distinct. by eapply list_elem_of_lookup_2.
Qed.

Lemma first_encounter_id_exists (l : list K) x :
  x ∈ l -> exists i, first_encounter_id l x i.
Proof.
  rewrite <- elem_of_distinct. intros [n Hn]%list_elem_of_lookup_1.
  exists (Z.of_nat n + 1). split; [lia|].
  by replace (Z.to_nat (Z.of_nat n + 1 - 1)) with n by lia.
Qed.

Lemma interned_empty : interned (∅ : gmap K Z) [].
Proof.
  split; [done|]. intros x i. rewrite lookup_empty. split; [done|].
  intros [_ Hx]. done.
Qed.

Lemma intern_interned (d : gmap K Z) (seen : list K) x i d' :
  interned d seen -> intern d x = (i, d') ->
  interned d' (seen ++ [x]) /\ first_encounter_id (seen ++ [x]) x i.
Proof.
  intros [Hsize Hd]. unfold intern. destruct (d !! x) as [i0|] eqn:Hx.
  - intros [= <- <-]. apply Hd in Hx.
    assert (x ∈ distinct seen) as Hin
      by (rewrite elem_of_distinct; by eapply first_encounter_id_elem).
    assert (distinct (seen ++ [x]) = distinct seen) as Heq
      by (rewrite distinct_snoc; by case_decide).
    split; [|by apply first_encounter_id_app].
    split; [by rewrite Heq|]. intros y j. rewrite Hd.
    unfold first_encounter_id. by rewrite Heq.
  - intros [= <- <-].
    assert (x ∉ distinct seen) as Hnin.
    { rewrite elem_of_distinct. intros [j Hj]%first_encounter_id_exists.
      apply Hd in Hj. congruence. }
    assert (distinct (seen ++ [x]) = distinct seen ++ [x]) as Heq
      by (rewrite distinct_snoc; by case_decide).
    assert (first_encounter_id (seen ++ [x]) x (Z.of_nat (size d) + 1)) as Hnew.
    { split; [lia|]. rewrite Heq, Hsize.
      replace (Z.to_nat (Z.of_nat (length (distinct seen)) + 1 - 1))
        with (length (distinct seen)) by lia.
      by rewrite list_lookup_middle. }
    split; [|done]. split.
    + rewrite map_size_insert_None by done.
      rewrite Heq, length_app. simpl. lia.
    + intros y j. destruct (decide (x = y)) as [<-|Hne].
      * rewrite lookup_insert_eq. split.
        -- by intros [= <-].
        -- intros Hj. f_equal. symmetry.
           by apply (first_encounter_id_inj (seen ++ [x]) x x).
      * rewrite lookup_insert_ne by done. rewrite Hd.
        unfold first_encounter_id. rewrite Heq. split.
        -- intros [Hj Hy]. split; [done|]. by apply lookup_app_l_Some.
        -- intros [Hj Hy]. split; [done|].
           apply lookup_app_Some in Hy as [Hy|[_ Hy]]; [done|].
           apply list_lookup_singleton_Some in Hy as [_ ?]. done.
Qed.

End interning.

(** ** save *)

Lemma save_loop aux cfg tp fs ss rs :
  Forall2 (fun s r => with_split aux cfg tp fs s = Ok r) ss rs ->
  forall doc ds seen, interned ds seen ->
  exists ids ds',
    for_each (save_body aux cfg tp fs) ss (doc, ds) =
      Ok (foldl document_step doc (zip rs ids), ds') /\
    length ids = length rs /\
    interned ds' (seen ++ (split <$> rs)) /\
    Forall2 (fun r i => first_encounter_id (seen ++ (split <$> rs)) (split r) i)
            rs ids.
Proof.
  induction 1 as [|s r ss rs Hs _ IH]; intros doc ds seen Hds.
  - exists [], ds. simpl. rewrite app_nil_r.
    split; [done|]. split; [done|]. split; [done | constructor].
  - simpl. rewrite Hs. simpl.
    destruct (intern ds (split r)) as [i ds1] eqn:Hi.
    destruct (intern_interned _ _ _ _ _ Hds Hi) as [Hds1 Hfe].
    destruct (IH (document_step doc (r, i)) ds1 _ Hds1)
      as (ids & ds' & Hloop & Hlen & Hds' & Hall).
    rewrite <- app_assoc in Hds', Hall. simpl in Hds', Hall.
    exists (i :: ids), ds'. simpl.
    split; [done|]. split; [by rewrite Hlen|]. split; [done|].
    constructor; [|done].
    apply (first_encounter_id_app (seen ++ [split r]) (split <$> rs)) in Hfe.
    by rewrite <- app_assoc in Hfe.
Qed.

Lemma save_loop_inv aux cfg tp fs ss st st' :
  for_each (save_body aux cfg tp fs) ss st = Ok st' ->
  exists rs, Forall2 (fun s r => with_split aux cfg tp fs s = Ok r) ss rs.
Proof.
  revert st. induction ss as [|s ss IH]; intros st; [by exists []|].
  simpl. intros [st1 [Hs H1]]%bind_Ok. destruct st as [doc ds].
  unfold save_body in Hs. apply bind_Ok in Hs as [r [Hr _]].
  destruct (IH _ H1) as [rs Hrs]. exists (r :: rs). by constructor.
Qed.

Lemma open_w_writable fs p : open_w fs p = Ok tt <-> writable fs p.
Proof.
  unfold open_w, writable. destruct (fs !! p) as [[]|]; try (split; done).
  destruct (fs !! parent p) as [[]|]; split; done.
Qed.

Lemma save_Ok aux m fs st :
  for_each (save_body aux (project_config m)
              (parent (path aux (project_config m))) fs)
           (shuffles m) ([], ∅) = Ok st ->
  writable fs (path aux (project_config m)) ->
  save aux m fs = Ok (<[path aux (project_config m) := Yaml (fst st)]> fs).
Proof.
  intros Hloop Hw%open_w_writable. unfold save. rewrite Hloop. simpl.
  by rewrite Hw.
Qed.

Lemma save_inv aux m fs fs' :
  save aux m fs = Ok fs' ->
  exists st,
    for_each (save_body aux (project_config m)
                (parent (path aux (project_config m))) fs)
             (shuffles m) ([], ∅) = Ok st /\
    writable fs (path aux (project_config m)) /\
    fs' = <[path aux (project_config m) := Yaml (fst st)]> fs.
Proof.
  unfold save. intros [st [Hloop H]]%bind_Ok.
  apply bind_Ok in H as [[] [Hw [= <-]]].
  exists st. split; [done|]. split; [by apply open_w_writable | done].
Qed.

Lemma dict_set_member {V} k (v : V) (d : list (string * V)) :
  (k, v) ∈ dict_set k v d.
Proof.
  induction d as [|[k' v'] d IH]; cbn [dict_set]; [by left|].
  destruct (decide (k' = k)) as [->|Hne]; [by left | by right].
Qed.

Lemma dict_set_other_member {V} k k' (v v' : V) (d : list (string * V)) :
  k' <> k -> (k', v') ∈ d -> (k', v') ∈ dict_set k v d.
Proof.
  intros Hne. induction d as [|[k0 v0] d IH]; cbn [dict_set].
  - by intros ?%elem_of_nil.
  - intros [[= <- <-]|Hin]%elem_of_cons.
    + rewrite decide_False by done. by left.
    + destruct (decide (k0 = k)); right; [done | by apply IH].
Qed.

Lemma dict_set_key_cases {V} k k' (v : V) (d : list (string * V)) :
  k' ∈ (dict_set k v d).*1 -> k' = k \/ k' ∈ d.*1.
Proof.
  induction d as [|[k0 v0] d IH]; cbn [dict_set].
  - rewrite fmap_cons. cbn [fst]. intros ->%list_elem_of_singleton. by left.
  - destruct (decide (k0 = k)) as [->|Hne]; rewrite !fmap_cons; cbn [fst].
    + intros [->|Hin]%elem_of_cons; [by left | right; by right].
    + intros [->|Hin]%elem_of_cons; [right; by left|].
      destruct (IH Hin) as [->|?]; [by left | right; by right].
Qed.

Lemma dict_set_NoDup {V} k (v : V) (d : list (string * V)) :
  NoDup d.*1 -> NoDup (dict_set k v d).*1.
Proof.
  induction d as [|[k0 v0] d IH]; cbn [dict_set].
  - intros _. rewrite fmap_cons. cbn [fst fmap list_fmap].
    apply NoDup_singleton.
  - rewrite fmap_cons. cbn [fst]. intros [Hk0 Hd]%list.NoDup_cons.
    destruct (decide (k0 = k)) as [->|Hne]; rewrite fmap_cons; cbn [fst].
    + by apply list.NoDup_cons.
    + apply list.NoDup_cons. split; [|by apply IH].
      intros [->|Hin]%dict_set_key_cases; done.
Qed.

Lemma document_NoDup ps : forall d0,
  NoDup d0.*1 -> NoDup (foldl document_step d0 ps).*1.
Proof.
  induction ps as [|p ps IH]; intros d0 Hd0; [done|].
  cbn [foldl]. apply IH. by apply dict_set_NoDup.
Qed.

Lemma document_keeps ps : forall (d0 : Document) k e,
  (k, e) ∈ d0 ->
  (forall p, p ∈ ps -> name (fst p) <> k) ->
  (k, e) ∈ foldl document_step d0 ps.
Proof.
  induction ps as [|p ps IH]; intros d0 k e Hin Hps; [done|].
  cbn [foldl]. apply IH.
  - apply dict_set_other_member; [|done].
    intros Heq. apply (Hps p); [by left | done].
  - intros p' Hp'. apply Hps. by right.
Qed.

Lemma document_last rs : forall ids d0 j r i,
  rs !! j = Some r -> ids !! j = Some i ->
  (forall k r', (j < k)%nat -> rs !! k = Some r' -> name r' <> name r) ->
  (name r, entry_of r i) ∈ foldl document_step d0 (zip rs ids).
Proof.
  induction rs as [|r0 rs IH]; intros ids d0 j r i Hr Hi Hlast; [done|].
  destruct ids as [|i0 ids]; [by destruct j|].
  destruct j as [|j]; cbn [zip zip_with foldl].
  - injection Hr as ->. injection Hi as ->.
    apply document_keeps; [apply dict_set_member|].
    intros [r' i'] [k Hk]%list_elem_of_lookup_1. cbn [fst].
    apply lookup_zip_with_Some in Hk as (r'' & i'' & [= <- <-] & Hr' & _).
    apply (Hlast (S k) r'); [lia | done].
  - apply (IH ids _ j); [done | done |].
    intros k r' Hjk Hr'. apply (Hlast (S k) r'); [lia | done].
Qed.

(** C5.  Let every record have its split or get it from its documentation
    file, and let the metadata file be writable.  Then [save] writes a
    document with one entry for each name, and there are split ids, one for
    each record, such that the id of a record is the 1-based position of its
    split among the distinct splits in the order of their first occurrence
    in the registry; two records have the same id if and only if their
    splits are equal, train and test indices alike; and the entry written
    under the name of a record holds the id of that record as its split,
    for every record that is the last of its name. *)
Theorem save_interning (aux : Auxiliary) (m : TrainingDatasetMetadata)
    (fs : FileSystem) (rs : list ShuffleMetadata) :
  Forall2
    (fun s r =>
       with_split aux (project_config m)
         (parent (path aux (project_config m))) fs s = Ok r)
    (shuffles m) rs ->
  writable fs (path aux (project_config m)) ->
  exists doc ids,
    save aux m fs = Ok (<[path aux (project_config m) := Yaml doc]> fs) /\
    NoDup doc.*1 /\
    Forall2 (fun r i => first_encounter_id (split <$> rs) (split r) i) rs ids /\
    (forall j k rj rk ij ik,
       rs !! j = Some rj -> rs !! k = Some rk ->
       ids !! j = Some ij -> ids !! k = Some ik ->
       (ij = ik <-> split rj = split rk)) /\
    (forall j r i,
       rs !! j = Some r -> ids !! j = Some i ->
       (forall k r', (j < k)%nat -> rs !! k = Some r' -> name r' <> name r) ->
       exists e, (name r, e) ∈ doc /\ entry_split e = i).
Proof.
  intros Hrs Hw.
  destruct (save_loop _ _ _ _ _ _ Hrs [] ∅ [] interned_empty)
    as (ids & ds' & Hloop & Hlen & Hds' & Hall).
  simpl in Hall. exists (document_of rs ids), ids.
  split; [by rewrite (save_Ok _ _ _ _ Hloop Hw)|].
  split; [apply document_NoDup; constructor|].
  split; [done|]. split.
  - intros j k rj rk ij ik Hj Hk Hij Hik.
    eapply first_encounter_id_inj.
    + by apply (Forall2_lookup_lr _ _ _ _ _ _ Hall Hj Hij).
    + by apply (Forall2_lookup_lr _ _ _ _ _ _ Hall Hk Hik).
  - intros j r i Hr Hi Hlast. exists (entry_of r i).
    split; [by apply (document_last rs ids [] j) | done].
Qed.

Lemma save_interning_witness :
  exists doc ids,
    save aux0 meta_three fs_project =
      Ok (<[path aux0 cfg0 := Yaml doc]> fs_project) /\
    NoDup doc.*1 /\
    Forall2 (fun r i => first_encounter_id (split <$> shuffles meta_three) (split r) i)
            (shuffles meta_three) ids /\
    (forall j k rj rk ij ik,
       shuffles meta_three !! j = Some rj -> shuffles meta_three !! k = Some rk ->
       ids !! j = Some ij -> ids !! k = Some ik ->
       (ij = ik <-> split rj = split rk)) /\
    (forall j r i,
       shuffles meta_three !! j = Some r -> ids !! j = Some i ->
       (forall k r', (j < k)%nat -> shuffles meta_three !! k = Some r' ->
                     name r' <> name r) ->
       exists e, (name r, e) ∈ doc /\ entry_split e = i).
Proof.
  apply (save_interning aux0 meta_three fs_project (shuffles meta_three)).
  - repeat constructor.
  - vm_compute. reflexivity.
Defined.

(** The ids of three records of which the first and the last share a
    split. *)
Example save_interning_example :
  (fs ← save aux0 meta_three fs_project;
   doc ← yaml_load fs (path aux0 cfg0);
   Ok (map (fun p : string * Entry => (fst p, entry_split (snd p))) doc)) =
  Ok [("a", 1); ("b", 2); ("c", 1)].
Proof. vm_compute. reflexivity. Qed.

(** Without the folder of the metadata file nothing is written. *)
Example save_without_folder :
  save aux0 meta_three ∅ = Raise FileNotFound.
Proof. vm_compute. reflexivity. Qed.

(** ** save followed by load *)

Lemma dict_set_fresh {V} k (v : V) (d : list (string * V)) :
  k ∉ d.*1 -> dict_set k v d = d ++ [(k, v)].
Proof.
  induction d as [|[k' v'] d IH]; [done|]. simpl.
  rewrite not_elem_of_cons. intros [Hne Hd].
  rewrite decide_False by done. by rewrite IH.
Qed.

Lemma foldl_document_step rs : forall ids d0,
  NoDup (d0.*1 ++ (name <$> rs)) ->
  foldl document_step d0 (zip rs ids) =
  d0 ++ zip_with (fun r i => (name r, entry_of r i)) rs ids.
Proof.
  induction rs as [|r rs IH]; intros ids d0 Hnd.
  - simpl. by rewrite app_nil_r.
  - destruct ids as [|i ids]; [simpl; by rewrite app_nil_r|].
    simpl. unfold document_step at 2. simpl.
    rewrite fmap_cons in Hnd.
    rewrite dict_set_fresh.
    + rewrite IH; [by rewrite <- app_assoc|].
      rewrite fmap_app, <- app_assoc. done.
    + apply list.NoDup_app in Hnd as (_ & Hnd & _).
      intros Hin. apply (Hnd _ Hin). by left.
Qed.

Lemma document_of_unique rs ids :
  NoDup (name <$> rs) ->
  document_of rs ids = zip_with (fun r i => (name r, entry_of r i)) rs ids.
Proof. intros Hnd. unfold document_of. by rewrite foldl_document_step. Qed.

Lemma Engine_of_primary_alias e : Engine_of_alias (primary_alias e) = Ok e.
Proof. destruct e; reflexivity. Qed.

Lemma with_split_unloaded aux cfg tp fs s r :
  with_split aux cfg tp fs s = Ok r -> unloaded r = unloaded s.
Proof.
  unfold with_split, load_split. destruct (split s); [by intros [= <-]|].
  destruct (negb _); [done|].
  intros [d [_ H]]%bind_Ok. apply bind_Ok in H as [sp [_ H]].
  by injection H as <-.
Qed.

Lemma load_loop aux cfg load_splits fs rs : forall ids rs' acc,
  length ids = length rs ->
  Forall2 (fun r r' => reloaded aux cfg load_splits fs r = Ok r') rs rs' ->
  for_each (load_body aux cfg load_splits fs)
           (zip_with (fun r i => (name r, entry_of r i)) rs ids) acc =
  Ok (acc ++ rs').
Proof.
  induction rs as [|r rs IH]; intros ids rs' acc Hlen Hall.
  - inversion Hall; subst. simpl. by rewrite app_nil_r.
  - destruct ids as [|i ids]; [done|].
    inversion Hall as [|? r' ? rs'' Hr Hrs]; subst. simpl.
    rewrite Engine_of_primary_alias. simpl.
    unfold reloaded, unloaded in Hr. rewrite Hr. simpl.
    rewrite (IH ids rs''); [by rewrite <- app_assoc | | done].
    simpl in Hlen. lia.
Qed.

Lemma Forall2_unloaded_fmap aux cfg tp fs ss rs :
  Forall2 (fun s r => with_split aux cfg tp fs s = Ok r) ss rs ->
  unloaded <$> rs = unloaded <$> ss.
Proof.
  induction 1 as [|s r ss rs Hs _ IH]; [done|].
  rewrite !fmap_cons, IH. f_equal. by eapply with_split_unloaded.
Qed.

Lemma sorted_shuffles_id l : strictly_sorted l -> sorted_shuffles l = l.
Proof.
  intros H. apply sorted_id. apply lt_le; [apply tuple_lt_irrefl
                                          | apply tuple_lt_trans |].
  by apply strictly_sorted_StronglySorted.
Qed.

Lemma strictly_sorted_fmap_key (f : ShuffleMetadata -> ShuffleMetadata) l :
  (forall s, sort_key (f s) = sort_key s) ->
  strictly_sorted l -> strictly_sorted (f <$> l).
Proof.
  intros Hf H i j a b Hij Ha Hb.
  apply list_lookup_fmap_Some in Ha as [a' [-> Ha]].
  apply list_lookup_fmap_Some in Hb as [b' [-> Hb]].
  rewrite !Hf. by eapply H.
Qed.

Lemma with_split_name aux cfg tp fs s r :
  with_split aux cfg tp fs s = Ok r -> name r = name s.
Proof.
  intros H%with_split_unloaded. by injection H.
Qed.

Lemma Forall2_with_split_names aux cfg tp fs ss rs :
  Forall2 (fun s r => with_split aux cfg tp fs s = Ok r) ss rs ->
  name <$> rs = name <$> ss.
Proof.
  induction 1 as [|s r ss rs Hs _ IH]; [done|].
  rewrite !fmap_cons, IH. f_equal. by eapply with_split_name.
Qed.

Lemma NoDup_fst_eq {A B} (l : list (A * B)) k v1 v2 :
  NoDup l.*1 -> (k, v1) ∈ l -> (k, v2) ∈ l -> v1 = v2.
Proof.
  induction l as [|[k0 v0] l IH]; [by intros _ ?%elem_of_nil|].
  rewrite fmap_cons. cbn [fst]. intros [Hk Hl]%list.NoDup_cons H1 H2.
  apply elem_of_cons in H1 as [H1|H1]; apply elem_of_cons in H2 as [H2|H2].
  - congruence.
  - injection H1 as -> ->. destruct Hk.
    apply list_elem_of_fmap. by exists (k0, v2).
  - injection H2 as -> ->. destruct Hk.
    apply list_elem_of_fmap. by exists (k0, v1).
  - by apply IH.
Qed.

(** The entry of a record in the document of records of pairwise distinct
    names. *)
Lemma document_entry rs ids j r e :
  NoDup (name <$> rs) -> length ids = length rs ->
  rs !! j = Some r -> (name r, e) ∈ document_of rs ids ->
  exists i, ids !! j = Some i /\ e = entry_of r i.
Proof.
  intros Hnd Hlen Hr Hin.
  destruct (lookup_lt_is_Some_2 ids j) as [i Hi].
  { rewrite Hlen. by eapply lookup_lt_Some. }
  exists i. split; [done|].
  eapply NoDup_fst_eq; [| exact Hin |].
  - apply document_NoDup. constructor.
  - apply (document_last rs ids [] j); [done | done |].
    intros k r' Hjk Hr' Heq.
    assert (j = k) as ->; [|lia].
    eapply NoDup_lookup; [exact Hnd | |].
    + by rewrite list_lookup_fmap, Hr.
    + rewrite list_lookup_fmap, Hr'. simpl. by rewrite Heq.
Qed.

Lemma save_document aux m fs fs' :
  save aux m fs = Ok fs' -> NoDup (name <$> shuffles m) ->
  exists rs ids,
    Forall2
      (fun s r =>
         with_split aux (project_config m)
           (parent (path aux (project_config m))) fs s = Ok r)
      (shuffles m) rs /\
    length ids = length rs /\
    Forall2 (fun r i => first_encounter_id (split <$> rs) (split r) i) rs ids /\
    fs' = <[path aux (project_config m) := Yaml (document_of rs ids)]> fs /\
    document_of rs ids = zip_with (fun r i => (name r, entry_of r i)) rs ids.
Proof.
  intros (st & Hloop & _ & ->)%save_inv Hnd.
  destruct (save_loop_inv _ _ _ _ _ _ _ Hloop) as [rs Hrs].
  destruct (save_loop _ _ _ _ _ _ Hrs [] ∅ [] interned_empty)
    as (ids & ds' & Hloop' & Hlen & _ & Hall).
  rewrite Hloop' in Hloop. injection Hloop as <-. simpl in Hall |- *.
  exists rs, ids. split; [done|]. split; [done|]. split; [done|].
  split; [done|].
  rewrite document_of_unique; [done|].
  by rewrite (Forall2_with_split_names _ _ _ _ _ _ Hrs).
Qed.

Lemma load_of_document aux cfg load_splits fs rs ids rs' :
  length ids = length rs ->
  Forall2 (fun r r' => reloaded aux cfg load_splits fs r = Ok r') rs rs' ->
  strictly_sorted rs' ->
  fs !! path aux cfg =
    Some (Yaml (zip_with (fun r i => (name r, entry_of r i)) rs ids)) ->
  load aux cfg load_splits fs = Ok (Build_TrainingDatasetMetadata cfg rs').
Proof.
  intros Hlen Hall Hs Hfs. unfold load, yaml_load. rewrite Hfs. simpl.
  rewrite (load_loop _ _ _ _ _ ids rs' [] Hlen Hall). simpl.
  rewrite sorted_shuffles_id by done. by apply new_Ok.
Qed.

Lemma reloaded_with_split aux cfg tp fs fs' ss rs :
  Forall2 (fun s r => with_split aux cfg tp fs s = Ok r) ss rs ->
  Forall
    (fun s => load_split aux (unloaded s) cfg (parent (path aux cfg)) fs' = Ok s)
    ss ->
  Forall2 (fun r r' => reloaded aux cfg true fs' r = Ok r') rs ss.
Proof.
  induction 1 as [|s r ss rs Hs _ IH]; intros Hall; [constructor|].
  apply list.Forall_cons in Hall as [Hl Hall].
  constructor; [|by apply IH]. unfold reloaded.
  by rewrite (with_split_unloaded _ _ _ _ _ _ Hs).
Qed.

Lemma add_save_load_counterexample :
  (m' ← add meta_a0 shuffle_a1 false;
   fs' ← save aux0 m' fs_project;
   m'' ← load aux0 cfg0 false fs';
   Ok (map sort_key (shuffles m'), map sort_key (shuffles m''))) =
  Ok ([(Q2Qc (3 # 5), 0); (Q2Qc (3 # 5), 1)], [(Q2Qc (3 # 5), 1)]).
Proof. vm_compute. reflexivity. Qed.

(** C9, amended.  Let [add] return a registry whose records have pairwise
    distinct names.  [save] of it succeeds when every record has its split
    and the metadata file is writable.  After any [save] that succeeds,
    [load] returns the registry of the same project with the same records
    in the same order: same names, train fractions, indices and engines,
    the splits not loaded.  The split ids of the file stand for the splits:
    the entries of two records hold the same id if and only if the splits
    of the two records, as given or as read by [save], are equal.  With
    [load_splits], [load] returns the registry itself when the
    documentation files hold the splits of its records. *)
Theorem add_save_load (aux : Auxiliary) (m : TrainingDatasetMetadata)
    (s : ShuffleMetadata) (overwrite : bool) (m' : TrainingDatasetMetadata)
    (fs : FileSystem) :
  add m s overwrite = Ok m' ->
  NoDup (name <$> shuffles m') ->
  (Forall (fun r => split r <> None) (shuffles m') ->
   writable fs (path aux (project_config m')) ->
   is_Ok (save aux m' fs)) /\
  (forall fs', save aux m' fs = Ok fs' ->
     load aux (project_config m') false fs' =
       Ok (Build_TrainingDatasetMetadata (project_config m')
             (unloaded <$> shuffles m')) /\
     (exists doc,
        fs' !! path aux (project_config m') = Some (Yaml doc) /\
        forall r1 r2 r1' r2' e1 e2,
          r1 ∈ shuffles m' -> r2 ∈ shuffles m' ->
          with_split aux (project_config m')
            (parent (path aux (project_config m'))) fs r1 = Ok r1' ->
          with_split aux (project_config m')
            (parent (path aux (project_config m'))) fs r2 = Ok r2' ->
          (name r1, e1) ∈ doc -> (name r2, e2) ∈ doc ->
          (entry_split e1 = entry_split e2 <-> split r1' = split r2')) /\
     (Forall
        (fun r =>
           load_split aux (unloaded r) (project_config m')
             (parent (path aux (project_config m'))) fs' = Ok r)
        (shuffles m') ->
      load aux (project_config m') true fs' = Ok m')).
Proof.
  intros [_ Hs]%add_inv Hnd. split.
  - intros Hall Hw.
    assert (Forall2
              (fun s r =>
                 with_split aux (project_config m')
                   (parent (path aux (project_config m'))) fs s = Ok r)
              (shuffles m') (shuffles m')) as Hrs.
    { apply Forall_Forall2_diag. eapply list.Forall_impl; [exact Hall|].
      intros r Hr. simpl in *. unfold with_split.
      destruct (split r); [done | congruence]. }
    destruct (save_loop _ _ _ _ _ _ Hrs [] ∅ [] interned_empty)
      as (ids & ds' & Hloop & _).
    rewrite (save_Ok _ _ _ _ Hloop Hw). by eexists.
  - intros fs' Hsave.
    destruct (save_document _ _ _ _ Hsave Hnd)
      as (rs & ids & Hrs & Hlen & Hids & -> & Hdoc).
    pose proof (Forall2_unloaded_fmap _ _ _ _ _ _ Hrs) as Hun.
    pose proof (Forall2_with_split_names _ _ _ _ _ _ Hrs) as Hnames.
    split; [|split].
    + rewrite <- Hun. eapply load_of_document.
      * exact Hlen.
      * apply Forall2_fmap_r, Forall_Forall2_diag, list.Forall_forall. done.
      * rewrite Hun. by apply strictly_sorted_fmap_key.
      * by rewrite lookup_insert_eq, Hdoc.
    + exists (document_of rs ids). split; [by rewrite lookup_insert_eq|].
      assert (forall r r' e,
                r ∈ shuffles m' ->
                with_split aux (project_config m')
                  (parent (path aux (project_config m'))) fs r = Ok r' ->
                (name r, e) ∈ document_of rs ids ->
                first_encounter_id (split <$> rs) (split r') (entry_split e))
        as Hentry.
      { intros r r' e [j Hj]%list_elem_of_lookup_1 Hr' He.
        destruct (Forall2_lookup_l _ _ _ _ _ Hrs Hj) as (r'' & Hj' & Hr'').
        assert (r'' = r') as -> by congruence.
        rewrite <- (with_split_name _ _ _ _ _ _ Hr') in He.
        destruct (document_entry rs ids j r' e) as (i & Hi & ->);
          [by rewrite Hnames | done | done | done |].
        by apply (Forall2_lookup_lr _ _ _ _ _ _ Hids Hj' Hi). }
      intros r1 r2 r1' r2' e1 e2 Hr1 Hr2 Hw1 Hw2 He1 He2.
      exact (first_encounter_id_inj _ _ _ _ _
               (Hentry r1 r1' e1 Hr1 Hw1 He1) (Hentry r2 r2' e2 Hr2 Hw2 He2)).
    + intros Hall. destruct m' as [cfg ss]. simpl in *.
      eapply load_of_document.
      * exact Hlen.
      * by eapply reloaded_with_split.
      * done.
      * by rewrite lookup_insert_eq, Hdoc.
Qed.

Lemma add_save_load_witness :
  exists fs',
    save aux0 (Build_TrainingDatasetMetadata cfg0 [shuffle_a0; shuffle_b1])
         fs_project = Ok fs' /\
    load aux0 cfg0 false fs' =
      Ok (Build_TrainingDatasetMetadata cfg0
            (unloaded <$> [shuffle_a0; shuffle_b1])).
Proof.
  destruct (add_save_load aux0 meta_a0 shuffle_b1 false
              (Build_TrainingDatasetMetadata cfg0 [shuffle_a0; shuffle_b1])
              fs_project)
    as [Hsave Hload].
  - vm_compute. reflexivity.
  - apply (bool_decide_unpack _). vm_compute. exact I.
  - destruct Hsave as [fs' Hfs'].
    + repeat constructor; done.
    + vm_compute. reflexivity.
    + exists fs'. split; [exact Hfs'|]. exact (proj1 (Hload fs' Hfs')).
Defined.

(** ** The engine of a shuffle *)

Lemma load_config aux cfg load_splits fs m :
  load aux cfg load_splits fs = Ok m -> project_config m = cfg.
Proof.
  unfold load. intros [metadata [_ H]]%bind_Ok.
  apply bind_Ok in H as [l [_ H]]. by apply new_inv in H as [-> _].
Qed.

Lemma get_inv m trainset_index index_ r :
  get m trainset_index index_ = Ok r ->
  py_index (TrainingFraction (project_config m)) trainset_index
    = Ok (train_fraction r) /\
  index r = index_ /\ r ∈ shuffles m.
Proof.
  unfold get. intros [tf [Htf H]]%bind_Ok.
  destruct (list_find _ _) as [[i r']|] eqn:Hfind; [|done].
  injection H as ->. apply list_find_Some in Hfind as (Hi & [<- Hidx] & _).
  split; [done|]. split; [done|]. by eapply list_elem_of_lookup_2.
Qed.

Lemma find_engines_spec aux cfg trainingsetindex tf shuffle modelprefix fs :
  py_index (TrainingFraction cfg) trainingsetindex = Ok tf ->
  exists engines,
    find_engines_from_model_folders aux cfg trainingsetindex shuffle modelprefix fs
      = Ok engines /\
    forall e, e ∈ engines <-> has_model_folder aux cfg fs tf shuffle modelprefix e.
Proof.
  intros Htf. unfold find_engines_from_model_folders. rewrite Htf. simpl.
  eexists. split; [reflexivity|].
  unfold has_model_folder, expected_model_folder.
  destruct (exists_ fs (project_path cfg ++
              get_model_folder aux tf shuffle cfg PYTORCH modelprefix)) eqn:H1;
  destruct (exists_ fs (project_path cfg ++
              get_model_folder aux tf shuffle cfg TF modelprefix)) eqn:H2;
  intros [|]; rewrite ?H1, ?H2; set_solver.
Qed.

Lemma set_pop_singleton (choice : nat) (e : Engine) :
  set_pop choice ({[ e ]} : gset Engine) = Ok e.
Proof.
  unfold set_pop. rewrite size_singleton, elements_singleton.
  by rewrite Nat.mod_1_r.
Qed.

Lemma Engine_two (e1 e2 e : Engine) : e1 <> e2 -> e = e1 \/ e = e2.
Proof. destruct e1, e2, e; intros; tauto. Qed.

Lemma engines_all (engines : gset Engine) (e : Engine) :
  (1 < size engines)%nat -> e ∈ engines.
Proof.
  intros Hsize. destruct (decide (e ∈ engines)) as [|Hnot]; [done|].
  exfalso.
  assert (engines ⊆ {[ match e with PYTORCH => TF | TF => PYTORCH end ]}) as Hsub.
  { intros x Hx. apply elem_of_singleton.
    destruct e, x; try done. }
  apply subseteq_size in Hsub. rewrite size_singleton in Hsub. lia.
Qed.

Lemma engines_two (engines : gset Engine) (e1 e2 : Engine) :
  e1 <> e2 -> e1 ∈ engines -> e2 ∈ engines -> (1 < size engines)%nat.
Proof.
  intros Hne H1 H2.
  assert ({[ e1 ]} ∪ {[ e2 ]} ⊆ engines) as Hsub by set_solver.
  apply subseteq_size in Hsub.
  rewrite size_union in Hsub by set_solver.
  rewrite !size_singleton in Hsub. lia.
Qed.

(** The branch of [get_shuffle_engine] after the three first steps. *)
Lemma get_shuffle_engine_steps aux cfg trainingsetindex shuffle modelprefix fs
    listing choice fs1 m r :
  ensure_metadata aux cfg fs listing = Ok fs1 ->
  load aux cfg false fs1 = Ok m ->
  get m trainingsetindex shuffle = Ok r ->
  exists engines,
    (forall e, e ∈ engines <->
       has_model_folder aux cfg fs1 (train_fraction r) shuffle modelprefix e) /\
    get_shuffle_engine aux cfg trainingsetindex shuffle modelprefix fs listing
      choice =
    if negb (String.eqb modelprefix "") then
      if (size engines =? 0)%nat then Raise NoEngineFound
      else if (size engines =? 1)%nat then
        e ← set_pop choice engines; Ok (e, fs1)
      else if bool_decide (engine r ∈ engines) then Ok (engine r, fs1)
      else e ← set_pop choice engines; Ok (e, fs1)
    else Ok (engine r, fs1).
Proof.
  intros Hens Hload Hget.
  pose proof (get_inv _ _ _ _ Hget) as (Htf & _ & _).
  rewrite (load_config _ _ _ _ _ Hload) in Htf.
  destruct (find_engines_spec aux cfg _ _ shuffle modelprefix fs1 Htf)
    as (engines & Hfind & Hspec).
  exists engines. split; [done|].
  unfold get_shuffle_engine. rewrite Hens. simpl. rewrite Hload. simpl.
  rewrite Hget. simpl. by rewrite Hfind.
Qed.

(** C6. When the metadata of the project holds the record of the shuffle:
    with an empty [modelprefix] the engine is the one of the record; with a
    [modelprefix] under which the model folder of exactly one engine exists,
    the engine is that one, whatever the record says; with a [modelprefix]
    under which no model folder exists, the call fails with
    [NoEngineFound]. *)
Theorem get_shuffle_engine_resolves (aux : Auxiliary) (cfg : Config)
    (trainingsetindex shuffle : Z) (modelprefix : string) (fs : FileSystem)
    (listing : list Path) (choice : nat) (fs1 : FileSystem)
    (m : TrainingDatasetMetadata) (r : ShuffleMetadata) :
  ensure_metadata aux cfg fs listing = Ok fs1 ->
  load aux cfg false fs1 = Ok m ->
  get m trainingsetindex shuffle = Ok r ->
  (modelprefix = "" ->
     get_shuffle_engine aux cfg trainingsetindex shuffle modelprefix fs listing
       choice = Ok (engine r, fs1)) /\
  (modelprefix <> "" ->
     forall e,
       has_model_folder aux cfg fs1 (train_fraction r) shuffle modelprefix e ->
       (forall e',
          has_model_folder aux cfg fs1 (train_fraction r) shuffle modelprefix e' ->
          e' = e) ->
       get_shuffle_engine aux cfg trainingsetindex shuffle modelprefix fs listing
         choice = Ok (e, fs1)) /\
  (modelprefix <> "" ->
     (forall e,
        ~ has_model_folder aux cfg fs1 (train_fraction r) shuffle modelprefix e) ->
     get_shuffle_engine aux cfg trainingsetindex shuffle modelprefix fs listing
       choice = Raise NoEngineFound).
Proof.
  intros Hens Hload Hget.
  destruct (get_shuffle_engine_steps aux cfg trainingsetindex shuffle modelprefix
              fs listing choice fs1 m r Hens Hload Hget)
    as (engines & Hspec & ->).
  split; [|split].
  - intros ->. done.
  - intros Hne e He Huniq. apply String.eqb_neq in Hne. rewrite Hne. simpl.
    assert (engines = {[ e ]}) as ->.
    { apply set_eq. intros x. rewrite Hspec, elem_of_singleton. split.
      - apply Huniq.
      - by intros ->. }
    rewrite size_singleton. simpl. by rewrite set_pop_singleton.
  - intros Hne Hnone. apply String.eqb_neq in Hne. rewrite Hne. simpl.
    assert (engines = ∅) as ->.
    { apply set_eq. intros x. rewrite Hspec. split; [|done].
      intros Hx. by destruct (Hnone x). }
    by rewrite size_empty.
Qed.

Lemma get_shuffle_engine_resolves_witness :
  get_shuffle_engine aux0 cfg0 0 0 "pre" fs_one_engine [] 0
    = Ok (PYTORCH, fs_one_engine).
Proof.
  destruct (get_shuffle_engine_resolves aux0 cfg0 0 0 "pre" fs_one_engine [] 0%nat
              fs_one_engine
              (Build_TrainingDatasetMetadata cfg0 [unloaded shuffle_a0])
              (unloaded shuffle_a0))
    as (_ & Hone & _).
  - vm_compute. reflexivity.
  - vm_compute. reflexivity.
  - vm_compute. reflexivity.
  - apply Hone.
    + discriminate.
    + vm_compute. reflexivity.
    + intros [|]; [reflexivity|]. vm_compute. discriminate.
Defined.

Lemma get_shuffle_engine_choice aux cfg trainingsetindex shuffle modelprefix fs
    listing choice choice' :
  get_shuffle_engine aux cfg trainingsetindex shuffle modelprefix fs listing
    choice' =
  get_shuffle_engine aux cfg trainingsetindex shuffle modelprefix fs listing
    choice.
Proof.
  destruct (ensure_metadata aux cfg fs listing) as [fs1|err] eqn:Hens;
    [|unfold get_shuffle_engine; by rewrite Hens].
  destruct (load aux cfg false fs1) as [m|err] eqn:Hload;
    [|unfold get_shuffle_engine; rewrite Hens; simpl; by rewrite Hload].
  destruct (get m trainingsetindex shuffle) as [r|err] eqn:Hget;
    [|unfold get_shuffle_engine; rewrite Hens; simpl; rewrite Hload; simpl;
      by rewrite Hget].
  destruct (get_shuffle_engine_steps aux cfg trainingsetindex shuffle modelprefix
              fs listing choice fs1 m r Hens Hload Hget)
    as (engines & Hspec & ->).
  destruct (get_shuffle_engine_steps aux cfg trainingsetindex shuffle modelprefix
              fs listing choice' fs1 m r Hens Hload Hget)
    as (engines' & Hspec' & ->).
  assert (engines' = engines) as ->
    by (apply set_eq; intros x; by rewrite Hspec, Hspec').
  destruct (negb _); [|done].
  destruct (size engines =? 0)%nat eqn:H0; [done|].
  destruct (size engines =? 1)%nat eqn:H1.
  - apply Nat.eqb_eq, size_1_elem_of in H1 as [x Hx].
    apply leibniz_equiv in Hx as ->. by rewrite !set_pop_singleton.
  - rewrite bool_decide_eq_true_2; [done|]. apply engines_all.
    apply Nat.eqb_neq in H0, H1. lia.
Qed.

(** C7. When the model folders of more than one engine exist under a
    non-empty [modelprefix], the engine of the record is among them and it
    is the result.  With the two engines of the enumeration the [pop] of the
    ambiguous branch is never reached, and the [pop] of a set of one engine
    has one outcome: the result does not depend on which element a [pop]
    takes, so two runs on the same metadata and file system agree. *)
Theorem get_shuffle_engine_ambiguous (aux : Auxiliary) (cfg : Config)
    (trainingsetindex shuffle : Z) (modelprefix : string) (fs : FileSystem)
    (listing : list Path) (choice : nat) :
  (forall choice',
     get_shuffle_engine aux cfg trainingsetindex shuffle modelprefix fs listing
       choice' =
     get_shuffle_engine aux cfg trainingsetindex shuffle modelprefix fs listing
       choice) /\
  (forall fs1 m r e1 e2,
     ensure_metadata aux cfg fs listing = Ok fs1 ->
     load aux cfg false fs1 = Ok m ->
     get m trainingsetindex shuffle = Ok r ->
     modelprefix <> "" ->
     e1 <> e2 ->
     has_model_folder aux cfg fs1 (train_fraction r) shuffle modelprefix e1 ->
     has_model_folder aux cfg fs1 (train_fraction r) shuffle modelprefix e2 ->
     has_model_folder aux cfg fs1 (train_fraction r) shuffle modelprefix (engine r) /\
     get_shuffle_engine aux cfg trainingsetindex shuffle modelprefix fs listing
       choice = Ok (engine r, fs1)).
Proof.
  split; [intros choice'; apply get_shuffle_engine_choice|].
  intros fs1 m r e1 e2 Hens Hload Hget Hne He12 He1 He2.
  destruct (get_shuffle_engine_steps aux cfg trainingsetindex shuffle modelprefix
              fs listing choice fs1 m r Hens Hload Hget)
    as (engines & Hspec & ->).
  apply String.eqb_neq in Hne. rewrite Hne. simpl.
  assert (1 < size engines)%nat as Hsize
    by (apply (engines_two engines e1 e2); [done | by apply Hspec..]).
  split; [by apply Hspec, engines_all|].
  destruct (size engines) as [|[|n]]; [lia | lia |]. simpl.
  rewrite bool_decide_eq_true_2; [done|].
  apply Hspec. destruct (Engine_two e1 e2 (engine r) He12) as [-> | ->]; done.
Qed.

Lemma get_shuffle_engine_ambiguous_witness :
  get_shuffle_engine aux0 cfg0 0 0 "pre" fs_two_engines [] 7
    = Ok (TF, fs_two_engines).
Proof.
  destruct (get_shuffle_engine_ambiguous aux0 cfg0 0 0 "pre" fs_two_engines []
              7%nat) as [_ Htwo].
  apply (Htwo fs_two_engines
           (Build_TrainingDatasetMetadata cfg0 [unloaded shuffle_a0])
           (unloaded shuffle_a0) PYTORCH TF).
  - vm_compute. reflexivity.
  - vm_compute. reflexivity.
  - vm_compute. reflexivity.
  - discriminate.
  - discriminate.
  - vm_compute. reflexivity.
  - vm_compute. reflexivity.
Defined.

(** ** create *)

Lemma create_body_migrated aux cfg fs doc_path l ex :
  match migrated aux cfg fs doc_path with
  | Ok r => exists ex', create_body aux cfg fs doc_path (l, ex) = Ok (l ++ [r], ex')
  | Raise e => create_body aux cfg fs doc_path (l, ex) = Raise e
  end.
Proof.
  unfold migrated, create_body.
  destruct (Names.int _) as [i|e]; simpl; [|done].
  destruct (pickle_load fs doc_path) as [d|e]; simpl; [|done].
  destruct (intern ex _) as [split_idx ex'].
  destruct (DataSplit_new _ _) as [sp|e]; simpl; [|done].
  by exists ex'.
Qed.

Lemma create_loop aux cfg fs docs rs :
  Forall2 (fun p r => migrated aux cfg fs p = Ok r) docs rs ->
  forall l ex, exists ex',
    for_each (create_body aux cfg fs) docs (l, ex) = Ok (l ++ rs, ex').
Proof.
  induction 1 as [|p r docs rs Hp _ IH]; intros l ex.
  - exists ex. simpl. by rewrite app_nil_r.
  - rewrite for_each_cons.
    pose proof (create_body_migrated aux cfg fs p l ex) as Hb.
    rewrite Hp in Hb. destruct Hb as [ex1 ->]. simpl.
    destruct (IH (l ++ [r]) ex1) as [ex' ->]. exists ex'.
    by rewrite <- app_assoc.
Qed.

Lemma create_loop_inv aux cfg fs docs : forall l ex st,
  for_each (create_body aux cfg fs) docs (l, ex) = Ok st ->
  exists rs,
    Forall2 (fun p r => migrated aux cfg fs p = Ok r) docs rs /\
    fst st = l ++ rs.
Proof.
  induction docs as [|p docs IH]; intros l ex st.
  - intros [= <-]. exists []. split; [constructor|]. simpl. by rewrite app_nil_r.
  - rewrite for_each_cons.
    pose proof (create_body_migrated aux cfg fs p l ex) as Hb.
    destruct (migrated aux cfg fs p) as [r|e] eqn:Hp.
    + destruct Hb as [ex1 ->]. simpl. intros H.
      destruct (IH _ _ _ H) as (rs & Hrs & ->).
      exists (r :: rs). split; [by constructor|]. by rewrite <- app_assoc.
    + by rewrite Hb.
Qed.

Lemma migrated_TF aux cfg fs p r : migrated aux cfg fs p = Ok r -> engine r = TF.
Proof.
  unfold migrated. intros [i [_ H]]%bind_Ok.
  apply bind_Ok in H as [d [_ H]]. apply bind_Ok in H as [sp [_ H]].
  by injection H as <-.
Qed.

Lemma create_inv_records aux cfg fs listing m :
  create aux cfg fs listing = Ok m ->
  exists rs,
    Forall2 (fun p r => migrated aux cfg fs p = Ok r)
      (filter (fun f => Names.re_match (path_name f) = true) listing) rs /\
    m = Build_TrainingDatasetMetadata cfg (sorted_shuffles rs) /\
    strictly_sorted (sorted_shuffles rs).
Proof.
  unfold create. intros [[l ex] [Hloop Hnew]]%bind_Ok.
  destruct (create_loop_inv _ _ _ _ _ _ _ Hloop) as (rs & Hrs & Hl).
  simpl in *. subst l. exists rs. split; [done|]. by apply new_inv.
Qed.

Lemma create_permutation aux cfg fs listing1 listing2 m :
  listing1 ≡ₚ listing2 ->
  create aux cfg fs listing1 = Ok m -> create aux cfg fs listing2 = Ok m.
Proof.
  intros Hperm Hc.
  destruct (create_inv_records _ _ _ _ _ Hc) as (rs1 & Hrs1 & -> & Hs).
  assert (filter (fun f => Names.re_match (path_name f) = true) listing1 ≡ₚ
          filter (fun f => Names.re_match (path_name f) = true) listing2) as Hf
    by (by rewrite Hperm).
  destruct (Permutation_Forall2 Hf Hrs1) as (rs2 & Hrs & Hrs2).
  unfold create.
  destruct (create_loop _ _ _ _ _ Hrs2 [] ∅) as [ex' ->]. simpl.
  assert (sorted_shuffles rs2 = sorted_shuffles rs1) as ->.
  { symmetry. apply (sorted_perm_eq tuple_lt sort_key tuple_lt_irrefl
                       tuple_lt_trans tuple_lt_total rs1 rs2 Hrs).
    apply (sorted_lt_NoDup tuple_lt sort_key tuple_lt_irrefl).
    by apply strictly_sorted_StronglySorted. }
  by apply new_Ok.
Qed.

(** C8. [create] gives every record it makes the engine [TF], and its
    result does not depend on the order in which the directory is listed:
    when it returns a registry for one listing of the training-datasets
    folder, it returns the same registry, with the same names, fractions,
    indices, engines and splits, for any other listing of the same
    contents. *)
Theorem create_idempotent (aux : Auxiliary) (cfg : Config) (fs : FileSystem)
    (listing1 listing2 : list Path) (m : TrainingDatasetMetadata) :
  is_iterdir fs (parent (path aux cfg)) listing1 ->
  is_iterdir fs (parent (path aux cfg)) listing2 ->
  create aux cfg fs listing1 = Ok m ->
  create aux cfg fs listing2 = Ok m /\
  Forall (fun s => engine s = TF) (shuffles m).
Proof.
  unfold is_iterdir. intros H1 H2 Hc. split.
  - eapply create_permutation; [|exact Hc]. by rewrite H1, H2.
  - destruct (create_inv_records _ _ _ _ _ Hc) as (rs & Hrs & -> & _). simpl.
    rewrite sorted_shuffles_perm.
    eapply Forall2_Forall_r; [exact Hrs|].
    apply list.Forall_forall. intros p _ r. apply migrated_TF.
Qed.

Lemma create_idempotent_witness :
  create aux0 cfg0 fs_legacy (reverse (entries fs_legacy trainset0))
    = Ok meta_legacy /\
  Forall (fun s => engine s = TF) (shuffles meta_legacy).
Proof.
  apply (create_idempotent aux0 cfg0 fs_legacy (entries fs_legacy trainset0)).
  - unfold is_iterdir. reflexivity.
  - unfold is_iterdir. exact (reverse_Permutation (entries fs_legacy trainset0)).
  - vm_compute. reflexivity.
Defined.

(** ** update_metadata *)

(** A shuffle registered from unordered indices is found again with its
    indices sorted, and registering it again without [overwrite] fails. *)
Example update_metadata_example :
  let fs0 : FileSystem := {[ metadata_path0 := Yaml [] ]} in
  (fs1 ← update_metadata aux0 cfg0 (Q2Qc (3 # 5)) 0 PYTORCH [3; 1; 2] [0; 4]
          false fs0;
   m ← load aux0 cfg0 false fs1;
   r ← get m 0 0;
   Ok (name r, engine r)) = Ok ("projJun17-trainset60shuffle0", PYTORCH) /\
  (m ← add meta_empty
         {| name := "P1"; train_fraction := Q2Qc (3 # 5); index := 0;
            engine := PYTORCH;
            split := Some (Build_DataSplit (sorted_ints [3; 1; 2])
                                           (sorted_ints [0; 4])) |} false;
   Ok (split <$> shuffles m))
    = Ok [Some (Build_DataSplit [1; 2; 3] [0; 4])] /\
  (m ← add meta_a0 shuffle_b0 false; Ok (shuffles m)) = Raise DuplicateShuffle.
Proof. vm_compute. repeat split; reflexivity. Qed.

(** Two shuffles of index 1 whose fractions give the same percentage get
    the same name: the second registration replaces the entry of the first
    in the document, and one record is left after [load]. *)
Example update_metadata_same_name :
  let fs0 : FileSystem :=
    {[ metadata_path0 := Yaml [];
       trainset0 ++ ["Documentation_data-projshuffle1.pickle"] :=
         Pickle {| doc_train_idx := [0; 1]; doc_test_idx := [2];
                   doc_train_frac := Q2Qc (3 # 5) |} ]} in
  (fs1 ← update_metadata aux0 cfg0 (Q2Qc (3 # 5)) 1 TF [0; 1] [2] false fs0;
   fs2 ← update_metadata aux0 cfg0 (Q2Qc (601 # 1000)) 1 TF [0; 1] [2] false fs1;
   m ← load aux0 cfg0 false fs2;
   Ok (map sort_key (shuffles m))) = Ok [(Q2Qc (601 # 1000), 1)].
Proof. vm_compute. reflexivity. Qed.

(** * Further properties *)

(** ** Normalised splits *)

Lemma sorted_ints_le l : StronglySorted (le_by Z.ltb id) (sorted_ints l).
Proof. apply sorted_le; [apply Z.ltb_irrefl | apply Z_ltb_trans | apply Z_ltb_total]. Qed.

Lemma sorted_ints_canonical a b : sorted_ints a = sorted_ints b <-> a ≡ₚ b.
Proof.
  split.
  - intros H. by rewrite <- (sorted_ints_perm a), H, sorted_ints_perm.
  - intros H. apply (StronglySorted_unique_strong (le_by Z.ltb id)).
    + unfold le_by, id. intros x y _ _ Hxy Hyx. by apply Z_ltb_total.
    + apply sorted_ints_le.
    + apply sorted_ints_le.
    + by rewrite !sorted_ints_perm.
Qed.

(** X1. Splits built from raw index collections as [load_split],
    [update_metadata] and [create] build them, from the sorted collections,
    are equal if and only if the train collections are permutations of each
    other and the test collections are: the order in which the indices are
    given does not matter, anything else does. *)
Theorem normalized_split_eq (train1 test1 train2 test2 : list Z)
    (d1 d2 : DataSplit) :
  DataSplit_new (sorted_ints train1) (sorted_ints test1) = Ok d1 ->
  DataSplit_new (sorted_ints train2) (sorted_ints test2) = Ok d2 ->
  (d1 = d2 <-> train1 ≡ₚ train2 /\ test1 ≡ₚ test2).
Proof.
  rewrite !DataSplit_new_cases.
  destruct (_ && _); [|done]. destruct (_ && _); [|done].
  intros [= <-] [= <-]. rewrite <- !sorted_ints_canonical. split.
  - by intros [= -> ->].
  - by intros [-> ->].
Qed.

Lemma normalized_split_eq_witness :
  Build_DataSplit [1; 2; 3] [0; 4] = Build_DataSplit [1; 2; 3] [0; 4] <->
  [3; 1; 2] ≡ₚ [2; 3; 1] /\ [0; 4] ≡ₚ [4; 0].
Proof.
  apply (normalized_split_eq [3; 1; 2] [0; 4] [2; 3; 1] [4; 0]); reflexivity.
Defined.

(** ** The constructor of the registry *)

(** X2. The constructor of the registry accepts a sequence of records if and
    only if it is in strictly ascending order of the keys
    [(train_fraction, index)], and fails with the error of [__post_init__]
    otherwise; a registry that is constructed holds the sequence as given:
    the constructor checks the order, it does not sort. *)
Theorem TrainingDatasetMetadata_new_validates (cfg : Config)
    (l : list ShuffleMetadata) :
  (TrainingDatasetMetadata_new cfg l = Ok (Build_TrainingDatasetMetadata cfg l) <->
   strictly_sorted l) /\
  (TrainingDatasetMetadata_new cfg l = Raise UnsortedShuffles <->
   ~ strictly_sorted l) /\
  (forall m, TrainingDatasetMetadata_new cfg l = Ok m ->
             project_config m = cfg /\ shuffles m = l).
Proof.
  destruct (new_cases cfg l) as [[Hs ->]|[Hs ->]].
  - split; [done|]. split; [split; [done | by intros []]|].
    by intros m [= <-].
  - split; [split; [done | by intros]|]. split; [done | by intros m].
Qed.

(** ** get *)

Lemma list_find_strictly_sorted l (f : Qc) (idx : Z) r :
  strictly_sorted l -> r ∈ l -> sort_key r = (f, idx) ->
  exists i,
    list_find (fun s => train_fraction s = f /\ index s = idx) l = Some (i, r).
Proof.
  intros Hs [i Hi]%list_elem_of_lookup_1 Hk. exists i.
  apply list_find_Some. split; [done|].
  injection Hk as Hf Hidx. split; [done|].
  intros j y Hy Hji [Hyf Hyi].
  apply (key_lt_irrefl (f, idx)).
  pose proof (Hs j i y r Hji Hy Hi) as Hlt.
  unfold sort_key in Hlt. by rewrite Hyf, Hyi, Hf, Hidx in Hlt.
Qed.

(** X3. On a registry that the constructor accepts, and for a slot of the
    configured training fractions, [get] returns a record exactly when it is
    the record of the registry with that fraction and that index, and fails
    with [ShuffleNotFound] exactly when the registry has no such record. *)
Theorem get_finds (m : TrainingDatasetMetadata) (trainset_index index_ : Z)
    (f : Qc) :
  valid m ->
  py_index (TrainingFraction (project_config m)) trainset_index = Ok f ->
  (forall r, get m trainset_index index_ = Ok r <->
             r ∈ shuffles m /\ sort_key r = (f, index_)) /\
  (get m trainset_index index_ = Raise ShuffleNotFound <->
   forall r, r ∈ shuffles m -> sort_key r <> (f, index_)).
Proof.
  intros Hv%valid_spec Hf. unfold get. rewrite Hf. simpl. split.
  - intros r. split.
    + destruct (list_find _ _) as [[i r']|] eqn:Hfind; [|done].
      intros [= ->]. apply list_find_Some in Hfind as (Hi & [<- <-] & _).
      split; [by eapply list_elem_of_lookup_2 | done].
    + intros [Hr Hk].
      by destruct (list_find_strictly_sorted _ _ _ _ Hv Hr Hk) as [i ->].
  - destruct (list_find _ _) as [[i r']|] eqn:Hfind.
    + split; [done|]. intros Hnone.
      apply list_find_Some in Hfind as (Hi & [Hf' Hi'] & _).
      destruct (Hnone r'); [by eapply list_elem_of_lookup_2|].
      unfold sort_key. by rewrite Hf', Hi'.
    + split; [|done]. intros _ r Hr Hk.
      rewrite list_find_None, list.Forall_forall in Hfind.
      apply (Hfind r Hr). by injection Hk.
Qed.

Lemma get_finds_witness :
  get meta_three 0 1 = Ok shuffle_b1 <->
  shuffle_b1 ∈ shuffles meta_three /\ sort_key shuffle_b1 = (Q2Qc (3 # 5), 1).
Proof.
  apply (get_finds meta_three 0 1 (Q2Qc (3 # 5))); reflexivity.
Defined.

(** X4. The slot of [get] is an index into the configured training
    fractions as Python lists take it: a slot at or beyond the number of
    fractions, or below minus that number, makes [get] fail with
    [IndexError] whatever the registry holds, and a negative slot from minus
    that number on stands for the slot counted from the end. *)
Theorem get_trainset_index (m : TrainingDatasetMetadata)
    (trainset_index index_ : Z) :
  (Z.of_nat (length (TrainingFraction (project_config m))) <= trainset_index \/
   trainset_index < - Z.of_nat (length (TrainingFraction (project_config m))) ->
   get m trainset_index index_ = Raise IndexError) /\
  (- Z.of_nat (length (TrainingFraction (project_config m))) <= trainset_index < 0 ->
   get m trainset_index index_ =
   get m (trainset_index
          + Z.of_nat (length (TrainingFraction (project_config m)))) index_).
Proof.
  unfold get, py_index.
  set (n := Z.of_nat (length (TrainingFraction (project_config m)))).
  split.
  - intros H. destruct (Z.ltb_spec trainset_index 0).
    + destruct (Z.leb_spec 0 (trainset_index + n)); [lia|]. done.
    + destruct (Z.leb_spec 0 trainset_index); [|lia]. simpl.
      destruct (Z.ltb_spec trainset_index n); [lia|]. done.
  - intros H. destruct (Z.ltb_spec trainset_index 0); [|lia].
    destruct (Z.ltb_spec (trainset_index + n) 0); [lia|]. done.
Qed.

(** ** add, again *)

Lemma add_flag m s overwrite m' :
  add m s overwrite = Ok m' -> overwrite = true \/ ~ has_key (shuffles m) s.
Proof.
  intros H. destruct overwrite; [by left|]. right. intros Hk.
  by rewrite add_duplicate in H.
Qed.

Lemma add_shuffles m s overwrite m' :
  add m s overwrite = Ok m' ->
  project_config m' = project_config m /\
  shuffles m' ≡ₚ s :: others (shuffles m) s /\
  strictly_sorted (shuffles m').
Proof.
  intros [-> Hs]%add_inv. simpl in *.
  split; [done|]. split; [apply sorted_others_perm | done].
Qed.

Lemma strictly_sorted_unique l1 l2 :
  strictly_sorted l1 -> strictly_sorted l2 -> l1 ≡ₚ l2 -> l1 = l2.
Proof.
  rewrite !strictly_sorted_StronglySorted.
  apply lt_unique; [apply tuple_lt_irrefl | apply tuple_lt_trans].
Qed.

Lemma others_perm l1 l2 s : l1 ≡ₚ l2 -> others l1 s ≡ₚ others l2 s.
Proof. intros H. unfold others. by rewrite H. Qed.

Lemma others_cons_same l s r :
  sort_key r = sort_key s -> others (r :: l) s = others l s.
Proof. intros H. unfold others. rewrite filter_cons. by rewrite decide_False by tauto. Qed.

Lemma others_cons_other l s r :
  sort_key r <> sort_key s -> others (r :: l) s = r :: others l s.
Proof. intros H. unfold others. rewrite filter_cons. by rewrite decide_True. Qed.

Lemma others_idemp l s : others (others l s) s = others l s.
Proof.
  unfold others. rewrite list_filter_filter. apply list_filter_iff. tauto.
Qed.

Lemma others_comm l s1 s2 : others (others l s1) s2 = others (others l s2) s1.
Proof.
  unfold others. rewrite !list_filter_filter. apply list_filter_iff. tauto.
Qed.

Lemma has_key_others l s1 s2 :
  sort_key s1 <> sort_key s2 -> has_key (others l s1) s2 <-> has_key l s2.
Proof.
  intros Hne. unfold has_key, others. split.
  - intros [r [[_ Hr]%list_elem_of_filter Hk]]. by exists r.
  - intros [r [Hr Hk]]. exists r. split; [|done].
    apply list_elem_of_filter. split; [congruence | done].
Qed.

Lemma has_key_perm l1 l2 s : l1 ≡ₚ l2 -> has_key l1 s <-> has_key l2 s.
Proof. intros H. unfold has_key. by setoid_rewrite H. Qed.

Lemma has_key_cons l r s :
  has_key (r :: l) s <-> sort_key r = sort_key s \/ has_key l s.
Proof.
  unfold has_key. split.
  - intros [x [[->|Hx]%elem_of_cons Hk]]; [by left | right; by exists x].
  - intros [Hk|[x [Hx Hk]]]; [exists r | exists x]; (split; [|done]).
    + by left.
    + by right.
Qed.

(** X5. Adding again a record that [add] has just put into the registry
    fails with [DuplicateShuffle] without [overwrite], and with [overwrite]
    returns the registry unchanged. *)
Theorem add_twice (m : TrainingDatasetMetadata) (s : ShuffleMetadata)
    (overwrite : bool) (m' : TrainingDatasetMetadata) :
  add m s overwrite = Ok m' ->
  add m' s false = Raise DuplicateShuffle /\ add m' s true = Ok m'.
Proof.
  intros Hadd. pose proof (add_shuffles _ _ _ _ Hadd) as (Hcfg & Hperm & Hs).
  split.
  - apply add_duplicate. exists s. split; [|done]. rewrite Hperm. by left.
  - rewrite add_Ok; [|by apply valid_spec | by left].
    destruct m' as [cfg' l']. simpl in *. f_equal. f_equal.
    apply strictly_sorted_unique; [|done|].
    + apply sorted_shuffles_strict, others_unique_keys,
        strictly_sorted_unique_keys. done.
    + etransitivity; [apply sorted_others_perm|].
      rewrite (others_perm _ _ s Hperm), others_cons_same by done.
      by rewrite others_idemp.
Qed.

Lemma add_twice_witness :
  add meta_a0_b1 shuffle_b1 false = Raise DuplicateShuffle /\
  add meta_a0_b1 shuffle_b1 true = Ok meta_a0_b1.
Proof.
  apply (add_twice meta_a0 shuffle_b1 false meta_a0_b1). reflexivity.
Defined.

(** X6. Two records of different keys can be added in either order: when
    adding the first and then the second succeeds, adding the second and
    then the first, with the same flags, succeeds and gives the same
    registry. *)
Theorem add_commutes (m : TrainingDatasetMetadata) (s1 s2 : ShuffleMetadata)
    (o1 o2 : bool) (m1 m12 : TrainingDatasetMetadata) :
  valid m ->
  sort_key s1 <> sort_key s2 ->
  add m s1 o1 = Ok m1 ->
  add m1 s2 o2 = Ok m12 ->
  exists m2, add m s2 o2 = Ok m2 /\ add m2 s1 o1 = Ok m12.
Proof.
  intros Hv Hne H1 H12.
  pose proof (add_shuffles _ _ _ _ H1) as (Hc1 & Hp1 & Hs1).
  pose proof (add_shuffles _ _ _ _ H12) as (Hc12 & Hp12 & Hs12).
  assert (o2 = true \/ ~ has_key (shuffles m) s2) as Hf2.
  { destruct (add_flag _ _ _ _ H12) as [?|Hk]; [by left|]. right.
    intros Hk'. apply Hk. rewrite (has_key_perm _ _ _ Hp1), has_key_cons.
    right. exact (proj2 (has_key_others (shuffles m) s1 s2 Hne) Hk'). }
  eexists. split; [by apply add_Ok|].
  set (m2 := Build_TrainingDatasetMetadata _ _).
  assert (shuffles m2 ≡ₚ s2 :: others (shuffles m) s2) as Hp2
    by apply sorted_others_perm.
  assert (strictly_sorted (shuffles m2)) as Hs2.
  { apply sorted_shuffles_strict, others_unique_keys,
      strictly_sorted_unique_keys. by apply valid_spec. }
  assert (o1 = true \/ ~ has_key (shuffles m2) s1) as Hf1.
  { destruct (add_flag _ _ _ _ H1) as [?|Hk]; [by left|]. right.
    rewrite (has_key_perm _ _ _ Hp2), has_key_cons.
    intros [Heq|Hk']; [congruence|]. apply Hk.
    assert (sort_key s2 <> sort_key s1) as Hne' by congruence.
    exact (proj1 (has_key_others (shuffles m) s2 s1 Hne') Hk'). }
  rewrite add_Ok; [|by apply valid_spec | done].
  destruct m12 as [cfg12 l12]. simpl in *. f_equal. f_equal.
  - congruence.
  - apply strictly_sorted_unique; [|done|].
    + apply sorted_shuffles_strict, others_unique_keys,
        strictly_sorted_unique_keys. done.
    + etransitivity; [apply sorted_others_perm|].
      etransitivity; [|symmetry; exact Hp12].
      rewrite (others_perm _ _ s1 Hp2), (others_perm _ _ s2 Hp1).
      rewrite !others_cons_other by congruence.
      rewrite others_comm. apply Permutation_swap.
Qed.

Lemma add_commutes_witness :
  exists m2,
    add meta_empty shuffle_b1 false = Ok m2 /\ add m2 shuffle_a0 false = Ok meta_a0_b1.
Proof.
  apply (add_commutes meta_empty shuffle_a0 shuffle_b1 false false meta_a0).
  - reflexivity.
  - vm_compute. discriminate.
  - reflexivity.
  - reflexivity.
Defined.

(** ** add and get *)

Lemma get_ext m1 m2 trainset_index index_ :
  project_config m1 = project_config m2 ->
  strictly_sorted (shuffles m1) -> strictly_sorted (shuffles m2) ->
  (forall r f, py_index (TrainingFraction (project_config m1)) trainset_index = Ok f ->
     sort_key r = (f, index_) -> (r ∈ shuffles m1 <-> r ∈ shuffles m2)) ->
  get m1 trainset_index index_ = get m2 trainset_index index_.
Proof.
  intros Hcfg Hs1 Hs2 Hiff. unfold get. rewrite <- Hcfg.
  destruct (py_index _ _) as [f|e] eqn:Hf; [|done]. simpl.
  destruct (list_find _ (shuffles m1)) as [[i r]|] eqn:H1.
  - apply list_find_Some in H1 as (Hi & [Hrf Hri] & _).
    assert (sort_key r = (f, index_)) as Hk by (unfold sort_key; congruence).
    assert (r ∈ shuffles m2) as Hr2
      by (apply (Hiff r f eq_refl Hk); by eapply list_elem_of_lookup_2).
    by destruct (list_find_strictly_sorted _ _ _ _ Hs2 Hr2 Hk) as [j ->].
  - destruct (list_find _ (shuffles m2)) as [[j r]|] eqn:H2; [|done].
    apply list_find_Some in H2 as (Hj & [Hrf Hri] & _).
    assert (sort_key r = (f, index_)) as Hk by (unfold sort_key; congruence).
    assert (r ∈ shuffles m1) as Hr1
      by (apply (Hiff r f eq_refl Hk); by eapply list_elem_of_lookup_2).
    destruct (list_find_strictly_sorted _ _ _ _ Hs1 Hr1 Hk) as [i Hi].
    congruence.
Qed.

Lemma get_member m trainset_index r :
  strictly_sorted (shuffles m) -> r ∈ shuffles m ->
  py_index (TrainingFraction (project_config m)) trainset_index
    = Ok (train_fraction r) ->
  get m trainset_index (index r) = Ok r.
Proof.
  intros Hs Hr Hf. unfold get. rewrite Hf. simpl.
  by destruct (list_find_strictly_sorted _ (train_fraction r) (index r) r Hs Hr
                 eq_refl) as [i ->].
Qed.

(** X7. After [add] has returned a registry, [get] with the slot of the
    fraction of the new record and with its index returns the new record,
    and [get] for any other fraction or index returns what it returned
    before. *)
Theorem add_get (m : TrainingDatasetMetadata) (s : ShuffleMetadata)
    (overwrite : bool) (m' : TrainingDatasetMetadata) (trainset_index : Z) :
  valid m ->
  add m s overwrite = Ok m' ->
  py_index (TrainingFraction (project_config m)) trainset_index
    = Ok (train_fraction s) ->
  get m' trainset_index (index s) = Ok s /\
  (forall i' index' f',
     py_index (TrainingFraction (project_config m)) i' = Ok f' ->
     (f', index') <> sort_key s ->
     get m' i' index' = get m i' index').
Proof.
  intros Hv%valid_spec Hadd Hf.
  pose proof (add_shuffles _ _ _ _ Hadd) as (Hcfg & Hperm & Hs).
  split.
  - apply get_member; [done | | by rewrite Hcfg].
    rewrite Hperm. by left.
  - intros i' index' f' Hf' Hne. apply get_ext; [done..|].
    intros r f. rewrite Hcfg, Hf'. intros [= <-] Hk.
    rewrite Hperm, elem_of_cons. unfold others. rewrite list_elem_of_filter.
    split.
    + intros [->|[_ ?]]; [congruence | done].
    + intros Hr. right. split; [congruence | done].
Qed.

Lemma add_get_witness :
  get meta_a0_b1 0 1 = Ok shuffle_b1 /\
  (forall i' index' f',
     py_index (TrainingFraction (project_config meta_a0)) i' = Ok f' ->
     (f', index') <> sort_key shuffle_b1 ->
     get meta_a0_b1 i' index' = get meta_a0 i' index').
Proof.
  apply (add_get meta_a0 shuffle_b1 false meta_a0_b1 0); reflexivity.
Defined.

(** ** save, again *)

Lemma dict_set_keys {V} k (v : V) (d : list (string * V)) :
  (dict_set k v d).*1 = if decide (k ∈ d.*1) then d.*1 else d.*1 ++ [k].
Proof.
  induction d as [|[k' v'] d IH]; [done|]. cbn [dict_set].
  destruct (decide (k' = k)) as [->|Hne].
  - rewrite !fmap_cons. cbn [fst]. rewrite decide_True; [done | by left].
  - rewrite !fmap_cons, IH. cbn [fst].
    destruct (decide (k ∈ d.*1)) as [Hin|Hnin].
    + rewrite decide_True; [done | by right].
    + rewrite decide_False; [done|]. rewrite elem_of_cons. intros [?|?]; congruence.
Qed.

Lemma dict_set_elem {V} k (v : V) (d : list (string * V)) item :
  item ∈ dict_set k v d -> item = (k, v) \/ item ∈ d.
Proof.
  induction d as [|[k' v'] d IH]; simpl.
  - intros ->%list_elem_of_singleton. by left.
  - destruct (decide (k' = k)) as [->|Hne].
    + intros [->|?]%elem_of_cons; [by left | right; by right].
    + intros [->|Hin]%elem_of_cons; [right; by left|].
      destruct (IH Hin) as [?|?]; [by left | right; by right].
Qed.

Lemma foldl_document_step_keys rs : forall ids d0,
  length ids = length rs ->
  (foldl document_step d0 (zip rs ids)).*1 =
  foldl (fun acc x => if decide (x ∈ acc) then acc else acc ++ [x])
        (d0.*1) (name <$> rs).
Proof.
  induction rs as [|r rs IH]; intros ids d0 Hlen; [done|].
  destruct ids as [|i ids]; [done|]. cbn [zip zip_with foldl fmap list_fmap].
  rewrite IH by (simpl in Hlen; lia).
  unfold document_step. cbn [fst snd]. by rewrite dict_set_keys.
Qed.

Lemma foldl_document_step_elem rs : forall ids d0 item,
  item ∈ foldl document_step d0 (zip rs ids) ->
  item ∈ d0 \/ exists r i, r ∈ rs /\ item = (name r, entry_of r i).
Proof.
  induction rs as [|r rs IH]; intros ids d0 item; [by left|].
  destruct ids as [|i ids]; [by left|]. simpl. intros Hin.
  destruct (IH _ _ _ Hin) as [Hd|(r' & i' & Hr' & ->)].
  - apply dict_set_elem in Hd as [->|?]; [|by left].
    right. exists r, i. split; [by left | done].
  - right. exists r', i'. split; [by right | done].
Qed.

Lemma with_split_fields aux cfg tp fs s r :
  with_split aux cfg tp fs s = Ok r ->
  name r = name s /\ train_fraction r = train_fraction s /\
  index r = index s /\ engine r = engine s.
Proof.
  intros H%with_split_unloaded. by injection H.
Qed.

(** X8. A [save] that succeeds changes the file system at the path of the
    metadata file and nowhere else.  The document it writes there has one
    entry for each distinct name among the records, in the order in which
    the names first occur, and every entry holds the train fraction, the
    index and the first alias of the engine of a record of that name. *)
Theorem save_writes_document (aux : Auxiliary) (m : TrainingDatasetMetadata)
    (fs fs' : FileSystem) :
  save aux m fs = Ok fs' ->
  exists doc,
    fs' = <[path aux (project_config m) := Yaml doc]> fs /\
    (forall p, p <> path aux (project_config m) -> fs' !! p = fs !! p) /\
    doc.*1 = distinct (name <$> shuffles m) /\
    (forall nm e, (nm, e) ∈ doc ->
       exists r, r ∈ shuffles m /\ name r = nm /\
         entry_train_fraction e = train_fraction r /\
         entry_index e = index r /\
         entry_engine e = primary_alias (engine r)).
Proof.
  intros (st & Hloop & _ & ->)%save_inv.
  destruct (save_loop_inv _ _ _ _ _ _ _ Hloop) as [rs Hrs].
  destruct (save_loop _ _ _ _ _ _ Hrs [] ∅ [] interned_empty)
    as (ids & ds' & Hloop' & Hlen & _).
  rewrite Hloop' in Hloop. injection Hloop as <-. simpl.
  eexists. split; [done|]. split; [|split].
  - intros p Hp. by rewrite lookup_insert_ne.
  - rewrite foldl_document_step_keys by done. unfold distinct. simpl.
    f_equal.
    replace (name <$> rs) with (name <$> (unloaded <$> rs))
      by (by rewrite <- list_fmap_compose).
    rewrite (Forall2_unloaded_fmap _ _ _ _ _ _ Hrs).
    by rewrite <- list_fmap_compose.
  - intros nm e Hin.
    apply foldl_document_step_elem in Hin as [Hin|(r & i & Hr & [= -> ->])];
      [by apply elem_of_nil in Hin|].
    apply list_elem_of_lookup_1 in Hr as [j Hj].
    destruct (Forall2_lookup_r _ _ _ _ _ Hrs Hj) as (s & Hs & Hsr).
    apply with_split_fields in Hsr as (Hn & Hf & Hi & He).
    exists s. split; [by eapply list_elem_of_lookup_2|].
    simpl. by rewrite Hf, Hi, He.
Qed.

Lemma save_writes_document_witness :
  exists doc,
    <[path aux0 cfg0 := Yaml (document_of (shuffles meta_three) [1; 2; 1])]>
      fs_project
      = <[path aux0 (project_config meta_three) := Yaml doc]> fs_project /\
    (forall p, p <> path aux0 (project_config meta_three) ->
       (<[path aux0 cfg0 := Yaml (document_of (shuffles meta_three) [1; 2; 1])]>
          fs_project) !! p = fs_project !! p) /\
    doc.*1 = distinct (name <$> shuffles meta_three) /\
    (forall nm e, (nm, e) ∈ doc ->
       exists r, r ∈ shuffles meta_three /\ name r = nm /\
         entry_train_fraction e = train_fraction r /\
         entry_index e = index r /\
         entry_engine e = primary_alias (engine r)).
Proof.
  apply (save_writes_document aux0 meta_three fs_project). reflexivity.
Defined.

(** X9. [save] succeeds exactly when every record that has no split gets one
    from [load_split] and the metadata file is writable: the records that
    carry their split are written without a look at the documentation
    files, and one record without split whose file cannot be loaded makes
    the whole [save] fail.  When the records are fine and neither the
    metadata file nor its folder is there, [save] fails with the
    [FileNotFound] of [open], after the documentation files were read. *)
Theorem save_succeeds_iff (aux : Auxiliary) (m : TrainingDatasetMetadata)
    (fs : FileSystem) :
  (is_Ok (save aux m fs) <->
   (forall s, s ∈ shuffles m -> split s = None ->
      is_Ok (load_split aux s (project_config m)
               (parent (path aux (project_config m))) fs)) /\
   writable fs (path aux (project_config m))) /\
  ((forall s, s ∈ shuffles m -> split s = None ->
      is_Ok (load_split aux s (project_config m)
               (parent (path aux (project_config m))) fs)) ->
   fs !! path aux (project_config m) = None ->
   fs !! parent (path aux (project_config m)) = None ->
   save aux m fs = Raise FileNotFound).
Proof.
  assert ((forall s, s ∈ shuffles m -> split s = None ->
             is_Ok (load_split aux s (project_config m)
                      (parent (path aux (project_config m))) fs)) ->
          exists st,
            for_each (save_body aux (project_config m)
                        (parent (path aux (project_config m))) fs)
                     (shuffles m) ([], ∅) = Ok st) as Hloops.
  { intros Hall.
    assert (exists rs,
              Forall2
                (fun s r =>
                   with_split aux (project_config m)
                     (parent (path aux (project_config m))) fs s = Ok r)
                (shuffles m) rs) as [rs Hrs].
    { apply Forall_exists_Forall2_l, list.Forall_forall. intros s Hs.
      unfold with_split. destruct (split s) eqn:Hsp; [by exists s|].
      by apply Hall. }
    destruct (save_loop _ _ _ _ _ _ Hrs [] ∅ [] interned_empty)
      as (ids & ds' & Hloop & _).
    by eexists. }
  split; [split|].
  - intros [fs' (st & Hloop & Hw & _)%save_inv].
    split; [|done].
    destruct (save_loop_inv _ _ _ _ _ _ _ Hloop) as [rs Hrs].
    intros s [j Hj]%list_elem_of_lookup_1 Hnone.
    destruct (Forall2_lookup_l _ _ _ _ _ Hrs Hj) as (r & _ & Hr).
    unfold with_split in Hr. rewrite Hnone in Hr. by exists r.
  - intros [Hall Hw]. destruct (Hloops Hall) as [st Hloop].
    rewrite (save_Ok _ _ _ _ Hloop Hw). by eexists.
  - intros Hall Hp Hd. destruct (Hloops Hall) as [st Hloop].
    unfold save. rewrite Hloop. simpl. unfold open_w. by rewrite Hp, Hd.
Qed.

(** ** load, again *)

Lemma load_body_entry aux cfg load_splits fs item acc :
  load_body aux cfg load_splits fs item acc =
  entry_record aux cfg load_splits fs item ≫= fun r => Ok (acc ++ [r]).
Proof.
  unfold load_body, entry_record, reloaded, unloaded. destruct item as [nm e].
  simpl. destruct (Engine_of_alias (entry_engine e)); [|done]. simpl.
  by destruct load_splits.
Qed.

Lemma load_loop_records aux cfg load_splits fs doc rs :
  Forall2 (fun item r => entry_record aux cfg load_splits fs item = Ok r) doc rs ->
  forall acc,
    for_each (load_body aux cfg load_splits fs) doc acc = Ok (acc ++ rs).
Proof.
  induction 1 as [|item r doc rs Hr _ IH]; intros acc.
  - simpl. by rewrite app_nil_r.
  - rewrite for_each_cons, load_body_entry, Hr. simpl.
    by rewrite IH, <- app_assoc.
Qed.

Lemma load_loop_inv aux cfg load_splits fs doc : forall acc l,
  for_each (load_body aux cfg load_splits fs) doc acc = Ok l ->
  exists rs,
    Forall2 (fun item r => entry_record aux cfg load_splits fs item = Ok r) doc rs /\
    l = acc ++ rs.
Proof.
  induction doc as [|item doc IH]; intros acc l.
  - intros [= <-]. exists []. split; [constructor | by rewrite app_nil_r].
  - rewrite for_each_cons, load_body_entry.
    destruct (entry_record aux cfg load_splits fs item) as [r|e] eqn:Hr; [|done].
    simpl. intros H. destruct (IH _ _ H) as (rs & Hrs & ->).
    exists (r :: rs). split; [by constructor | by rewrite <- app_assoc].
Qed.

Lemma load_inv_records aux cfg load_splits fs doc m :
  fs !! path aux cfg = Some (Yaml doc) ->
  load aux cfg load_splits fs = Ok m ->
  exists rs,
    Forall2 (fun item r => entry_record aux cfg load_splits fs item = Ok r) doc rs /\
    m = Build_TrainingDatasetMetadata cfg (sorted_shuffles rs) /\
    strictly_sorted (sorted_shuffles rs).
Proof.
  intros Hfs. unfold load, yaml_load. rewrite Hfs. simpl.
  intros [l [Hloop Hnew]]%bind_Ok.
  destruct (load_loop_inv _ _ _ _ _ _ _ Hloop) as (rs & Hrs & ->).
  exists rs. split; [done|]. by apply new_inv.
Qed.

Lemma load_split_fields aux s cfg tp fs r :
  load_split aux s cfg tp fs = Ok r ->
  name r = name s /\ train_fraction r = train_fraction s /\
  index r = index s /\ engine r = engine s /\ split r <> None.
Proof.
  unfold load_split. destruct (negb _); [done|].
  intros [d [_ H]]%bind_Ok. apply bind_Ok in H as [sp [_ H]].
  by injection H as <-.
Qed.

Lemma entry_record_fields aux cfg load_splits fs item r :
  entry_record aux cfg load_splits fs item = Ok r ->
  name r = fst item /\ sort_key r = entry_key item /\
  Engine_of_alias (entry_engine (snd item)) = Ok (engine r).
Proof.
  unfold entry_record, reloaded. intros [e [He H]]%bind_Ok.
  destruct load_splits.
  - apply load_split_fields in H as (Hn & Hf & Hi & Heng & _). simpl in *.
    unfold sort_key, entry_key. by rewrite Hn, Hf, Hi, Heng.
  - by injection H as <-.
Qed.

Lemma load_split_ext aux s cfg tp fs1 fs2 :
  (forall p, exists_ fs1 p = exists_ fs2 p) ->
  (forall p, pickle_load fs1 p = pickle_load fs2 p) ->
  load_split aux s cfg tp fs1 = load_split aux s cfg tp fs2.
Proof. intros He Hp. unfold load_split. by rewrite He, Hp. Qed.

Lemma entry_record_ext aux cfg load_splits fs1 fs2 item :
  (load_splits = true ->
   (forall p, exists_ fs1 p = exists_ fs2 p) /\
   (forall p, pickle_load fs1 p = pickle_load fs2 p)) ->
  entry_record aux cfg load_splits fs1 item =
  entry_record aux cfg load_splits fs2 item.
Proof.
  intros H. unfold entry_record, reloaded.
  destruct (Engine_of_alias _); [|done]. simpl.
  destruct load_splits; [|done]. destruct H as [He Hp]; [done|].
  by apply load_split_ext.
Qed.

(** X10. [load] does not depend on the order of the entries of the
    document: when it returns a registry for a metadata file, it returns the
    same registry for a metadata file that holds the same entries in another
    order.  Without [load_splits] nothing else of the file system matters;
    with [load_splits] the other files are to be the same. *)
Theorem load_order_independent (aux : Auxiliary) (cfg : Config)
    (load_splits : bool) (fs1 fs2 : FileSystem) (doc1 doc2 : Document)
    (m : TrainingDatasetMetadata) :
  fs1 !! path aux cfg = Some (Yaml doc1) ->
  fs2 !! path aux cfg = Some (Yaml doc2) ->
  doc1 ≡ₚ doc2 ->
  (load_splits = true -> forall p, p <> path aux cfg -> fs1 !! p = fs2 !! p) ->
  load aux cfg load_splits fs1 = Ok m ->
  load aux cfg load_splits fs2 = Ok m.
Proof.
  intros H1 H2 Hperm Hframe Hload.
  destruct (load_inv_records _ _ _ _ _ _ H1 Hload) as (rs1 & Hrs1 & -> & Hs).
  assert (forall item,
            entry_record aux cfg load_splits fs1 item =
            entry_record aux cfg load_splits fs2 item) as Hext.
  { intros item. apply entry_record_ext. intros Hls.
    specialize (Hframe Hls). split; intros p.
    - unfold exists_. destruct (decide (p = path aux cfg)) as [->|Hp].
      + by rewrite H1, H2.
      + by rewrite (Hframe p Hp).
    - unfold pickle_load. destruct (decide (p = path aux cfg)) as [->|Hp].
      + by rewrite H1, H2.
      + by rewrite (Hframe p Hp). }
  destruct (Permutation_Forall2 Hperm Hrs1) as (rs2 & Hrs & Hrs2).
  unfold load, yaml_load. rewrite H2. simpl.
  rewrite (load_loop_records aux cfg load_splits fs2 doc2 rs2).
  - simpl.
    assert (sorted_shuffles rs2 = sorted_shuffles rs1) as ->.
    { symmetry. apply (sorted_perm_eq tuple_lt sort_key tuple_lt_irrefl
                         tuple_lt_trans tuple_lt_total rs1 rs2 Hrs).
      apply (sorted_lt_NoDup tuple_lt sort_key tuple_lt_irrefl).
      by apply strictly_sorted_StronglySorted. }
    by apply new_Ok.
  - eapply list.Forall2_impl; [exact Hrs2|]. intros item r. simpl.
    by rewrite Hext.
Qed.

Lemma load_order_independent_witness :
  load aux0 cfg0 false
    {[ metadata_path0 :=
         Yaml [("b", entry_of shuffle_b1 2); ("a", entry_of shuffle_a0 1)] ]}
  = Ok (Build_TrainingDatasetMetadata cfg0
          [unloaded shuffle_a0; unloaded shuffle_b1]).
Proof.
  apply (load_order_independent aux0 cfg0 false
           {[ metadata_path0 :=
                Yaml [("a", entry_of shuffle_a0 1); ("b", entry_of shuffle_b1 2)] ]}
           {[ metadata_path0 :=
                Yaml [("b", entry_of shuffle_b1 2); ("a", entry_of shuffle_a0 1)] ]}
           [("a", entry_of shuffle_a0 1); ("b", entry_of shuffle_b1 2)]
           [("b", entry_of shuffle_b1 2); ("a", entry_of shuffle_a0 1)]).
  - reflexivity.
  - reflexivity.
  - apply Permutation_swap.
  - discriminate.
  - vm_compute. reflexivity.
Defined.

Lemma entry_key_fmap aux cfg load_splits fs doc rs :
  Forall2 (fun item r => entry_record aux cfg load_splits fs item = Ok r) doc rs ->
  sort_key <$> rs = entry_key <$> doc.
Proof.
  induction 1 as [|item r doc rs Hr _ IH]; [done|].
  rewrite !fmap_cons, IH. f_equal.
  by apply entry_record_fields in Hr as (_ & ? & _).
Qed.

(** X11. Without [load_splits], [load] of a metadata file succeeds exactly
    when the engine of every entry is an alias of an engine and no two
    entries have the same train fraction and index; when the engines are
    fine and two entries have the same fraction and index, it fails with the
    error of the constructor of the registry. *)
Theorem load_succeeds_iff (aux : Auxiliary) (cfg : Config) (fs : FileSystem)
    (doc : Document) :
  fs !! path aux cfg = Some (Yaml doc) ->
  (is_Ok (load aux cfg false fs) <->
   Forall (fun item => is_Ok (Engine_of_alias (entry_engine (snd item)))) doc /\
   NoDup (entry_key <$> doc)) /\
  (Forall (fun item => is_Ok (Engine_of_alias (entry_engine (snd item)))) doc ->
   ~ NoDup (entry_key <$> doc) ->
   load aux cfg false fs = Raise UnsortedShuffles).
Proof.
  intros Hfs.
  assert (Forall (fun item => is_Ok (Engine_of_alias (entry_engine (snd item)))) doc ->
          exists rs,
            Forall2 (fun item r => entry_record aux cfg false fs item = Ok r) doc rs)
    as Hbuild.
  { intros Hall. apply Forall_exists_Forall2_l.
    eapply list.Forall_impl; [exact Hall|]. intros item [e He].
    unfold entry_record, reloaded. rewrite He. simpl. by eexists. }
  split; [split|].
  - intros [m Hload].
    destruct (load_inv_records _ _ _ _ _ _ Hfs Hload) as (rs & Hrs & _ & Hs).
    split.
    + apply list.Forall_forall. intros item [j Hj]%list_elem_of_lookup_1.
      destruct (Forall2_lookup_l _ _ _ _ _ Hrs Hj) as (r & _ & Hr).
      apply entry_record_fields in Hr as (_ & _ & He). by eexists.
    + rewrite <- (entry_key_fmap _ _ _ _ _ _ Hrs).
      apply (sorted_lt_NoDup tuple_lt sort_key tuple_lt_irrefl).
      by apply strictly_sorted_StronglySorted.
  - intros [Hall Hnd]. destruct (Hbuild Hall) as [rs Hrs].
    unfold load, yaml_load. rewrite Hfs. simpl.
    rewrite (load_loop_records _ _ _ _ _ _ Hrs). simpl.
    rewrite new_Ok; [by eexists|].
    apply sorted_shuffles_strict. unfold unique_keys.
    by rewrite (entry_key_fmap _ _ _ _ _ _ Hrs).
  - intros Hall Hnd. destruct (Hbuild Hall) as [rs Hrs].
    unfold load, yaml_load. rewrite Hfs. simpl.
    rewrite (load_loop_records _ _ _ _ _ _ Hrs). simpl.
    destruct (new_cases cfg (sorted_shuffles rs)) as [[Hs _]|[_ ->]]; [|done].
    destruct Hnd. rewrite <- (entry_key_fmap _ _ _ _ _ _ Hrs).
    apply (sorted_lt_NoDup tuple_lt sort_key tuple_lt_irrefl).
    by apply strictly_sorted_StronglySorted.
Qed.

Lemma load_succeeds_iff_witness :
  load aux0 cfg0 false
    {[ metadata_path0 :=
         Yaml [("a", entry_of shuffle_a0 1); ("b", entry_of shuffle_b0 2)] ]}
  = Raise UnsortedShuffles.
Proof.
  apply (load_succeeds_iff aux0 cfg0
           {[ metadata_path0 :=
                Yaml [("a", entry_of shuffle_a0 1); ("b", entry_of shuffle_b0 2)] ]}
           [("a", entry_of shuffle_a0 1); ("b", entry_of shuffle_b0 2)]).
  - reflexivity.
  - repeat constructor; by eexists.
  - intros Hnd. apply NoDup_cons_1_1 in Hnd. apply Hnd. by left.
Defined.

(** ** update_metadata *)

Lemma load_writable aux cfg load_splits fs m :
  load aux cfg load_splits fs = Ok m -> writable fs (path aux cfg).
Proof.
  unfold load, yaml_load, writable. intros [doc [Hdoc _]]%bind_Ok.
  by destruct (fs !! path aux cfg) as [[]|].
Qed.

Lemma save_Ok_splits aux m fs :
  Forall (fun r => split r <> None) (shuffles m) ->
  writable fs (path aux (project_config m)) ->
  exists ids,
    length ids = length (shuffles m) /\
    save aux m fs =
      Ok (<[path aux (project_config m) :=
              Yaml (document_of (shuffles m) ids)]> fs).
Proof.
  intros Hall Hw.
  assert (Forall2
            (fun s r =>
               with_split aux (project_config m)
                 (parent (path aux (project_config m))) fs s = Ok r)
            (shuffles m) (shuffles m)) as Hrs.
  { apply Forall_Forall2_diag. eapply list.Forall_impl; [exact Hall|].
    intros r Hr. simpl in *. unfold with_split.
    destruct (split r); [done | congruence]. }
  destruct (save_loop _ _ _ _ _ _ Hrs [] ∅ [] interned_empty)
    as (ids & ds' & Hloop & Hlen & _).
  exists ids. split; [done|]. by rewrite (save_Ok _ _ _ _ Hloop Hw).
Qed.

Lemma load_true_splits aux cfg fs m :
  load aux cfg true fs = Ok m -> Forall (fun r => split r <> None) (shuffles m).
Proof.
  unfold load. intros [doc [_ H]]%bind_Ok.
  apply bind_Ok in H as [l [Hloop Hnew]].
  destruct (load_loop_inv _ _ _ _ _ _ _ Hloop) as (rs & Hrs & ->).
  apply new_inv in Hnew as [-> _]. simpl.
  rewrite sorted_shuffles_perm.
  eapply Forall2_Forall_r; [exact Hrs|].
  apply list.Forall_forall. intros item _ r.
  unfold entry_record, reloaded. intros [e [_ H]]%bind_Ok.
  by apply load_split_fields in H as (_ & _ & _ & _ & ?).
Qed.

Lemma DataSplit_new_sorted_ints train test :
  NoDup train -> NoDup test ->
  DataSplit_new (sorted_ints train) (sorted_ints test) =
  Ok (Build_DataSplit (sorted_ints train) (sorted_ints test)).
Proof.
  intros H1%np_all_lt_sorted_ints H2%np_all_lt_sorted_ints.
  by rewrite DataSplit_new_cases, H1, H2.
Qed.

Lemma update_metadata_steps aux cfg tf sh eng tr te overwrite fs m :
  load aux cfg true fs = Ok m -> NoDup tr -> NoDup te ->
  update_metadata aux cfg tf sh eng tr te overwrite fs =
  add m (new_shuffle aux cfg tf sh eng tr te) overwrite ≫= fun m' => save aux m' fs.
Proof.
  intros Hload H1 H2. unfold update_metadata. rewrite Hload. simpl.
  by rewrite DataSplit_new_sorted_ints.
Qed.

(** X12. Registering a shuffle and asking for its engine.  When the metadata
    with its splits loads, the index collections repeat no index, [add]
    accepts the new record and the names of the records are then pairwise
    distinct, [update_metadata] succeeds, and on the file system it returns
    [get_shuffle_engine] without model prefix gives the engine that was
    registered, for the slot of the fraction of the shuffle. *)
Theorem update_metadata_registers (aux : Auxiliary) (cfg : Config) (tf : Qc)
    (sh : Z) (eng : Engine) (tr te : list Z) (overwrite : bool)
    (fs : FileSystem) (m m' : TrainingDatasetMetadata) (slot : Z)
    (listing : list Path) (choice : nat) :
  load aux cfg true fs = Ok m ->
  NoDup tr -> NoDup te ->
  add m (new_shuffle aux cfg tf sh eng tr te) overwrite = Ok m' ->
  NoDup (name <$> shuffles m') ->
  py_index (TrainingFraction cfg) slot = Ok tf ->
  exists fs',
    update_metadata aux cfg tf sh eng tr te overwrite fs = Ok fs' /\
    get_shuffle_engine aux cfg slot sh "" fs' listing choice = Ok (eng, fs').
Proof.
  intros Hload H1 H2 Hadd Hnd Hslot.
  pose proof (load_config _ _ _ _ _ Hload) as Hcfg.
  pose proof (add_shuffles _ _ _ _ Hadd) as (Hcfg' & Hperm & Hs).
  rewrite Hcfg in Hcfg'.
  assert (Forall (fun r => split r <> None) (shuffles m')) as Hsplits.
  { rewrite Hperm. constructor; [done|].
    apply list.Forall_forall. intros r [_ Hr]%list_elem_of_filter.
    pose proof (load_true_splits _ _ _ _ Hload) as Hall.
    rewrite list.Forall_forall in Hall. by apply Hall. }
  destruct (save_Ok_splits aux m' fs Hsplits) as (ids & Hlen & Hsave).
  { rewrite Hcfg'. by eapply load_writable. }
  rewrite Hcfg' in Hsave. rewrite document_of_unique in Hsave by done.
  eexists. split.
  - rewrite (update_metadata_steps _ _ _ _ _ _ _ _ _ _ Hload H1 H2), Hadd.
    exact Hsave.
  - set (fs' := <[path aux cfg := _]> fs).
    assert (load aux cfg false fs' =
            Ok (Build_TrainingDatasetMetadata cfg (unloaded <$> shuffles m')))
      as Hload'.
    { eapply load_of_document.
      - exact Hlen.
      - apply Forall2_fmap_r, Forall_Forall2_diag, list.Forall_forall. done.
      - by apply strictly_sorted_fmap_key.
      - unfold fs'. by rewrite lookup_insert_eq. }
    unfold get_shuffle_engine, ensure_metadata, exists_.
    rewrite bool_decide_eq_true_2
      by (unfold fs'; rewrite lookup_insert_eq; by eexists).
    simpl. rewrite Hload'. simpl.
    rewrite (get_member _ slot (unloaded (new_shuffle aux cfg tf sh eng tr te))).
    + done.
    + simpl. by apply strictly_sorted_fmap_key.
    + simpl. apply list_elem_of_fmap_2. rewrite Hperm. by left.
    + done.
Qed.

Lemma update_metadata_registers_witness :
  exists fs',
    update_metadata aux0 cfg0 (Q2Qc (3 # 5)) 0 PYTORCH [3; 1; 2] [0; 4] false
      fs_fresh = Ok fs' /\
    get_shuffle_engine aux0 cfg0 0 0 "" fs' [] 0 = Ok (PYTORCH, fs').
Proof.
  apply (update_metadata_registers aux0 cfg0 (Q2Qc (3 # 5)) 0 PYTORCH [3; 1; 2]
           [0; 4] false fs_fresh meta_empty
           (Build_TrainingDatasetMetadata cfg0
              [new_shuffle aux0 cfg0 (Q2Qc (3 # 5)) 0 PYTORCH [3; 1; 2] [0; 4]])
           0 [] 0%nat).
  - vm_compute. reflexivity.
  - apply (bool_decide_unpack _). vm_compute. exact I.
  - apply (bool_decide_unpack _). vm_compute. exact I.
  - vm_compute. reflexivity.
  - apply (bool_decide_unpack _). vm_compute. exact I.
  - reflexivity.
Defined.

(** X13. What [update_metadata] rejects once the metadata is loaded: index
    collections that repeat an index, with [InvalidSplit] and whatever the
    flag, before it looks at the registry; and, without [overwrite], a
    shuffle whose train fraction and index are those of a registered
    shuffle, with [DuplicateShuffle]. *)
Theorem update_metadata_rejects (aux : Auxiliary) (cfg : Config) (tf : Qc)
    (sh : Z) (eng : Engine) (tr te : list Z) (fs : FileSystem)
    (m : TrainingDatasetMetadata) :
  load aux cfg true fs = Ok m ->
  (~ (NoDup tr /\ NoDup te) ->
   forall overwrite,
     update_metadata aux cfg tf sh eng tr te overwrite fs = Raise InvalidSplit) /\
  (NoDup tr -> NoDup te ->
   (exists r, r ∈ shuffles m /\ train_fraction r = tf /\ index r = sh) ->
   update_metadata aux cfg tf sh eng tr te false fs = Raise DuplicateShuffle).
Proof.
  intros Hload. split.
  - intros Hnd overwrite. unfold update_metadata. rewrite Hload. simpl.
    rewrite DataSplit_new_cases.
    destruct (np_all_lt (sorted_ints tr)) eqn:H1; [|done].
    destruct (np_all_lt (sorted_ints te)) eqn:H2; [|done].
    destruct Hnd. by split; apply np_all_lt_sorted_ints.
  - intros H1 H2 (r & Hr & Hf & Hi).
    rewrite (update_metadata_steps _ _ _ _ _ _ _ _ _ _ Hload H1 H2).
    rewrite add_duplicate; [done|]. exists r. split; [done|].
    unfold sort_key. simpl. by rewrite Hf, Hi.
Qed.

Lemma update_metadata_rejects_witness :
  update_metadata aux0 cfg0 (Q2Qc (3 # 5)) 0 PYTORCH [3; 1; 1] [0; 4] true
    fs_fresh = Raise InvalidSplit.
Proof.
  destruct (update_metadata_rejects aux0 cfg0 (Q2Qc (3 # 5)) 0 PYTORCH [3; 1; 1]
              [0; 4] fs_fresh meta_empty) as [Hrep _].
  - vm_compute. reflexivity.
  - apply Hrep. intros [Hnd _].
    apply NoDup_cons_1_2, NoDup_cons_1_1 in Hnd. apply Hnd. by left.
Defined.

Lemma load_split_file aux s cfg tp fs r :
  load_split aux s cfg tp fs = Ok r ->
  exists d,
    fs !! snd (get_data_and_metadata_filenames aux tp (train_fraction s)
                 (index s) cfg) = Some (Pickle d).
Proof.
  unfold load_split, pickle_load. destruct (negb _); [done|].
  intros [d [Hd _]]%bind_Ok.
  destruct (fs !! _) as [[d'| | |]|]; try done. by exists d'.
Qed.

(** X14. [update_metadata] works on an existing metadata file only, and it
    reloads the split of every shuffle of that file: it succeeds only if the
    metadata file is there and the documentation file of every entry of its
    document is a pickled documentation file, also for the entries that the
    call does not touch. *)
Theorem update_metadata_needs_files (aux : Auxiliary) (cfg : Config) (tf : Qc)
    (sh : Z) (eng : Engine) (tr te : list Z) (overwrite : bool)
    (fs fs' : FileSystem) :
  update_metadata aux cfg tf sh eng tr te overwrite fs = Ok fs' ->
  exists doc,
    fs !! path aux cfg = Some (Yaml doc) /\
    forall item, item ∈ doc ->
      exists d, fs !! entry_doc_path aux cfg item = Some (Pickle d).
Proof.
  unfold update_metadata. intros [m [Hload _]]%bind_Ok.
  assert (exists doc, fs !! path aux cfg = Some (Yaml doc)) as [doc Hdoc].
  { unfold load, yaml_load in Hload.
    destruct (fs !! path aux cfg) as [[| doc | |]|]; try done. by exists doc. }
  exists doc. split; [done|].
  destruct (load_inv_records _ _ _ _ _ _ Hdoc Hload) as (rs & Hrs & _).
  intros item [j Hj]%list_elem_of_lookup_1.
  destruct (Forall2_lookup_l _ _ _ _ _ Hrs Hj) as (r & _ & Hr).
  unfold entry_record, reloaded in Hr. apply bind_Ok in Hr as [e [_ Hr]].
  by apply load_split_file in Hr.
Qed.

Lemma returns_is_Ok {A} (r : result A) : returns r = true -> is_Ok r.
Proof. destruct r as [a|e]; [by exists a | done]. Qed.

Lemma update_metadata_needs_files_witness :
  exists doc,
    fs_registered !! path aux0 cfg0 = Some (Yaml doc) /\
    forall item, item ∈ doc ->
      exists d, fs_registered !! entry_doc_path aux0 cfg0 item = Some (Pickle d).
Proof.
  destruct (returns_is_Ok
              (update_metadata aux0 cfg0 (Q2Qc (3 # 5)) 1 PYTORCH
                 [3; 1; 2] [0; 4] false fs_registered)) as [fs' Hfs'].
  - vm_compute. reflexivity.
  - exact (update_metadata_needs_files aux0 cfg0 (Q2Qc (3 # 5)) 1 PYTORCH
             [3; 1; 2] [0; 4] false fs_registered fs' Hfs').
Defined.

(** The registered shuffle is read again when another one is added: without
    its documentation file nothing is added. *)
Example update_metadata_without_file :
  update_metadata aux0 cfg0 (Q2Qc (3 # 5)) 1 PYTORCH [3; 1; 2] [0; 4] false
    (delete doc_path0 fs_registered) = Raise SplitFileMissing.
Proof. vm_compute. reflexivity. Qed.

(** ** create, again *)

Lemma create_cases aux cfg fs listing rs :
  Forall2 (fun p r => migrated aux cfg fs p = Ok r) (shuffle_docs listing) rs ->
  (unique_keys rs /\
   create aux cfg fs listing =
     Ok (Build_TrainingDatasetMetadata cfg (sorted_shuffles rs))) \/
  (~ unique_keys rs /\ create aux cfg fs listing = Raise UnsortedShuffles).
Proof.
  intros Hrs. unfold create. fold (shuffle_docs listing).
  destruct (create_loop _ _ _ _ _ Hrs [] ∅) as [ex' ->]. simpl.
  destruct (new_cases cfg (sorted_shuffles rs)) as [[Hs ->]|[Hs ->]].
  - left. split; [|done].
    apply (sorted_lt_NoDup tuple_lt sort_key tuple_lt_irrefl).
    by apply strictly_sorted_StronglySorted.
  - right. split; [|done]. intros Hu. by apply Hs, sorted_shuffles_strict.
Qed.

(** X15. [create] succeeds exactly when every file of the listing whose name
    matches the pattern of the documentation files can be migrated and no
    two of the records so made have the same train fraction and index; when
    all can be migrated and two records have the same fraction and index, it
    fails with the error of the constructor of the registry.  A listing
    without matching file gives the registry without records. *)
Theorem create_succeeds_iff (aux : Auxiliary) (cfg : Config) (fs : FileSystem)
    (listing : list Path) :
  (is_Ok (create aux cfg fs listing) <->
   exists rs,
     Forall2 (fun p r => migrated aux cfg fs p = Ok r) (shuffle_docs listing) rs /\
     unique_keys rs) /\
  (forall rs,
     Forall2 (fun p r => migrated aux cfg fs p = Ok r) (shuffle_docs listing) rs ->
     ~ unique_keys rs ->
     create aux cfg fs listing = Raise UnsortedShuffles) /\
  (shuffle_docs listing = [] ->
   create aux cfg fs listing = Ok (Build_TrainingDatasetMetadata cfg [])).
Proof.
  split; [split|split].
  - intros [m Hm].
    destruct (create_inv_records _ _ _ _ _ Hm) as (rs & Hrs & _ & Hs).
    exists rs. split; [done|].
    apply (sorted_lt_NoDup tuple_lt sort_key tuple_lt_irrefl).
    by apply strictly_sorted_StronglySorted.
  - intros (rs & Hrs & Hu).
    destruct (create_cases _ _ _ _ _ Hrs) as [[_ ->]|[? _]]; [by eexists | done].
  - intros rs Hrs Hu.
    by destruct (create_cases _ _ _ _ _ Hrs) as [[? _]|[_ ->]].
  - intros Hnil.
    assert (Forall2 (fun p r => migrated aux cfg fs p = Ok r)
              (shuffle_docs listing) []) as Hrs by (rewrite Hnil; constructor).
    destruct (create_cases _ _ _ _ _ Hrs) as [[_ ->]|[Hu _]]; [done|].
    destruct Hu. constructor.
Qed.

(** Two documentation files of one fraction and index: no registry. *)
Example create_same_key :
  create aux0 cfg0 fs_twice (entries fs_twice trainset0) = Raise UnsortedShuffles.
Proof. vm_compute. reflexivity. Qed.

Lemma migrated_split aux cfg fs p r :
  migrated aux cfg fs p = Ok r -> split r <> None.
Proof.
  unfold migrated. intros [i [_ H]]%bind_Ok.
  apply bind_Ok in H as [d [_ H]]. apply bind_Ok in H as [sp [_ H]].
  by injection H as <-.
Qed.

Lemma create_splits aux cfg fs listing m :
  create aux cfg fs listing = Ok m ->
  project_config m = cfg /\ Forall (fun r => split r <> None) (shuffles m).
Proof.
  intros Hc. destruct (create_inv_records _ _ _ _ _ Hc) as (rs & Hrs & -> & _).
  split; [done|]. simpl. rewrite sorted_shuffles_perm.
  eapply Forall2_Forall_r; [exact Hrs|].
  apply list.Forall_forall. intros p _ r. apply migrated_split.
Qed.

(** ** The first step of get_shuffle_engine *)

(** X16. The first step of [get_shuffle_engine] leaves a file system with a
    metadata file as it is; on a file system without metadata file, where
    the folder that is listed is there, it succeeds whenever [create] does,
    as the records that [create] makes carry their splits, and then changes
    the file system at the path of the metadata file only.  After it has
    succeeded it does nothing more: a second run, whatever the listing,
    returns the file system of the first. *)
Theorem ensure_metadata_once (aux : Auxiliary) (cfg : Config) (fs : FileSystem)
    (listing : list Path) :
  (exists_ fs (path aux cfg) = true -> ensure_metadata aux cfg fs listing = Ok fs) /\
  (exists_ fs (path aux cfg) = false ->
   fs !! parent (path aux cfg) = Some Folder ->
   forall m, create aux cfg fs listing = Ok m ->
     exists doc,
       ensure_metadata aux cfg fs listing = Ok (<[path aux cfg := Yaml doc]> fs)) /\
  (forall fs1, ensure_metadata aux cfg fs listing = Ok fs1 ->
     forall listing', ensure_metadata aux cfg fs1 listing' = Ok fs1).
Proof.
  split; [|split].
  - intros He. unfold ensure_metadata. by rewrite He.
  - intros He Hd m Hc. unfold ensure_metadata. rewrite He, Hc. simpl.
    destruct (create_splits _ _ _ _ _ Hc) as [Hcfg Hall].
    destruct (save_Ok_splits aux m fs Hall) as (ids & _ & ->).
    { rewrite Hcfg. unfold writable. unfold exists_ in He.
      apply bool_decide_eq_false_1 in He.
      destruct (fs !! path aux cfg) eqn:Hp; [|done].
      destruct He. by eexists. }
    rewrite Hcfg. by eexists.
  - intros fs1 Hens listing'.
    assert (exists_ fs1 (path aux cfg) = true) as He1.
    { unfold ensure_metadata in Hens.
      destruct (exists_ fs (path aux cfg)) eqn:He; simpl in Hens.
      - by injection Hens as <-.
      - apply bind_Ok in Hens as [m [Hc Hsave]].
        destruct (create_splits _ _ _ _ _ Hc) as [Hcfg _].
        apply save_inv in Hsave as (st & _ & _ & ->).
        unfold exists_. rewrite Hcfg, lookup_insert_eq.
        by apply bool_decide_eq_true_2. }
    unfold ensure_metadata. by rewrite He1.
Qed.

(** The project made before the metadata file existed gets its file. *)
Example ensure_metadata_example :
  (fs1 ← ensure_metadata aux0 cfg0 fs_legacy_project
           (entries fs_legacy_project trainset0);
   m ← load aux0 cfg0 false fs1;
   Ok (map name (shuffles m))) =
  Ok ["projJun17-trainset60shuffle1"; "projJun17-trainset60shuffle2"].
Proof. vm_compute. reflexivity. Qed.

(** ** The result of get_shuffle_engine *)

Lemma set_pop_elem (choice : nat) (s : gset Engine) e :
  set_pop choice s = Ok e -> e ∈ s.
Proof.
  unfold set_pop. destruct (elements s !! _) as [x|] eqn:Hx; [|done].
  intros [= <-]. apply elem_of_elements. by eapply list_elem_of_lookup_2.
Qed.

(** X17. [get_shuffle_engine] returns an engine only for a shuffle that the
    metadata holds: when it returns, its first step has succeeded, the
    metadata loads and holds the record of the slot and the shuffle index;
    without model prefix the engine is that of the record, and with a model
    prefix it is an engine whose model folder exists. *)
Theorem get_shuffle_engine_sound (aux : Auxiliary) (cfg : Config)
    (trainingsetindex shuffle : Z) (modelprefix : string) (fs : FileSystem)
    (listing : list Path) (choice : nat) (e : Engine) (fs1 : FileSystem) :
  get_shuffle_engine aux cfg trainingsetindex shuffle modelprefix fs listing
    choice = Ok (e, fs1) ->
  ensure_metadata aux cfg fs listing = Ok fs1 /\
  exists m r,
    load aux cfg false fs1 = Ok m /\
    get m trainingsetindex shuffle = Ok r /\
    (modelprefix = "" -> e = engine r) /\
    (modelprefix <> "" ->
     has_model_folder aux cfg fs1 (train_fraction r) shuffle modelprefix e).
Proof.
  intros Hg.
  destruct (ensure_metadata aux cfg fs listing) as [fs2|err] eqn:Hens;
    [|unfold get_shuffle_engine in Hg; by rewrite Hens in Hg].
  destruct (load aux cfg false fs2) as [m|err] eqn:Hload;
    [|unfold get_shuffle_engine in Hg; rewrite Hens in Hg; simpl in Hg;
      by rewrite Hload in Hg].
  destruct (get m trainingsetindex shuffle) as [r|err] eqn:Hget;
    [|unfold get_shuffle_engine in Hg; rewrite Hens in Hg; simpl in Hg;
      rewrite Hload in Hg; simpl in Hg; by rewrite Hget in Hg].
  destruct (get_shuffle_engine_steps aux cfg trainingsetindex shuffle modelprefix
              fs listing choice fs2 m r Hens Hload Hget)
    as (engines & Hspec & Heq).
  rewrite Heq in Hg. clear Heq.
  destruct (String.eqb_spec modelprefix "") as [->|Hne]; simpl in Hg.
  - injection Hg as <- <-. split; [done|]. exists m, r. by repeat split.
  - assert (fs2 = fs1 /\ e ∈ engines) as [-> He].
    { destruct (size engines =? 0)%nat; [done|].
      destruct (size engines =? 1)%nat.
      - apply bind_Ok in Hg as [x [Hx [= -> ->]]]. split; [done|].
        by eapply set_pop_elem.
      - destruct (bool_decide (engine r ∈ engines)) eqn:Hin.
        + injection Hg as <- <-. split; [done|].
          by apply bool_decide_eq_true in Hin.
        + apply bind_Ok in Hg as [x [Hx [= -> ->]]]. split; [done|].
          by eapply set_pop_elem. }
    split; [done|]. exists m, r. repeat split; try done.
    intros _. by apply Hspec.
Qed.

Lemma get_shuffle_engine_sound_witness :
  ensure_metadata aux0 cfg0 fs_one_engine [] = Ok fs_one_engine /\
  exists m r,
    load aux0 cfg0 false fs_one_engine = Ok m /\
    get m 0 0 = Ok r /\
    ("pre" = "" -> PYTORCH = engine r) /\
    ("pre" <> "" ->
     has_model_folder aux0 cfg0 fs_one_engine (train_fraction r) 0 "pre" PYTORCH).
Proof.
  apply (get_shuffle_engine_sound aux0 cfg0 0 0 "pre" fs_one_engine [] 0%nat).
  vm_compute. reflexivity.
Defined.

(** ** load_split, again *)

(** X18. A record that [load_split] returns has the name, train fraction,
    index and engine of the record it was called on and a split whose train
    and test indices are strictly ascending.  The split comes from the
    documentation file alone: [load_split] on the returned record, or on
    any record of the same train fraction and index, gives the same
    split. *)
Theorem load_split_stable (aux : Auxiliary) (s : ShuffleMetadata) (cfg : Config)
    (trainset_path : Path) (fs : FileSystem) (r : ShuffleMetadata) :
  load_split aux s cfg trainset_path fs = Ok r ->
  name r = name s /\ sort_key r = sort_key s /\ engine r = engine s /\
  (exists d, split r = Some d /\
     strictly_ascending (train_indices d) /\
     strictly_ascending (test_indices d)) /\
  load_split aux r cfg trainset_path fs = Ok r /\
  (forall s' r', sort_key s' = sort_key s ->
     load_split aux s' cfg trainset_path fs = Ok r' -> split r' = split r).
Proof.
  intros Hl. pose proof (load_split_fields _ _ _ _ _ _ Hl) as (Hn & Hf & Hi & He & _).
  split; [done|]. split; [unfold sort_key; congruence|]. split; [done|].
  unfold load_split in Hl.
  destruct (negb _) eqn:Hex; [done|].
  apply bind_Ok in Hl as [d [Hd Hl]]. apply bind_Ok in Hl as [sp [Hsp Hl]].
  injection Hl as <-. cbn [split train_fraction index name engine].
  split; [|split].
  - exists sp. split; [done|].
    pose proof Hsp as Hsp'. rewrite DataSplit_new_cases in Hsp'.
    destruct (np_all_lt (sorted_ints (doc_train_idx d))) eqn:H1; [|done].
    destruct (np_all_lt (sorted_ints (doc_test_idx d))) eqn:H2; [|done].
    injection Hsp' as <-. cbn [train_indices test_indices].
    by rewrite <- !np_all_lt_spec.
  - unfold load_split. cbn [split train_fraction index name engine].
    rewrite Hex, Hd. cbn [mbind result_bind]. by rewrite Hsp.
  - intros s' r' [= Hf' Hi']. unfold load_split. rewrite Hf', Hi', Hex, Hd.
    cbn [mbind result_bind]. rewrite Hsp. by intros [= <-].
Qed.

(** ** Names of documentation files *)

Lemma append_cons (x : ascii) (a b : string) :
  String x a +:+ b = String x (a +:+ b).
Proof. reflexivity. Qed.

Lemma append_assoc (a b c : string) : (a +:+ b) +:+ c = a +:+ (b +:+ c).
Proof. induction a as [|x a IH]; [done|]. by rewrite !append_cons, IH. Qed.

Lemma append_nil_r (a : string) : a +:+ "" = a.
Proof. induction a as [|x a IH]; [done|]. by rewrite append_cons, IH. Qed.

Lemma strip_prefix_app p s : Names.strip_prefix p (p +:+ s) = Some s.
Proof.
  induction p as [|a p IH]; [by destruct s|].
  rewrite append_cons. cbn. by rewrite Ascii.eqb_refl.
Qed.

Lemma rev_app_append s1 s2 t :
  String.rev_app (s1 +:+ s2) t = String.rev_app s2 (String.rev_app s1 t).
Proof.
  revert t. induction s1 as [|a s1 IH]; intros t; [done|].
  rewrite append_cons. cbn. by rewrite IH.
Qed.

Lemma rev_app_rev s t : String.rev_app s t = String.rev s +:+ t.
Proof.
  revert t. induction s as [|a s IH]; intros t; [done|].
  unfold String.rev. cbn. rewrite (IH (String a t)), (IH (String a "")).
  by rewrite append_assoc.
Qed.

Lemma rev_involutive s : String.rev (String.rev s) = s.
Proof.
  induction s as [|a s IH]; [done|].
  change (String.rev (String a s)) with (String.rev_app s (String a "")).
  rewrite rev_app_rev.
  change (String.rev (String.rev s +:+ String a ""))
    with (String.rev_app (String.rev s +:+ String a "") "").
  rewrite rev_app_append.
  change (String.rev_app (String.rev s) "") with (String.rev (String.rev s)).
  by rewrite IH.
Qed.

Lemma lstrip_black s : starts_black s -> Names.lstrip s = s.
Proof. destruct s as [|c s]; [done|]. simpl. by intros ->. Qed.

Lemma strip_black s :
  starts_black s -> starts_black (String.rev s) -> Names.strip s = s.
Proof.
  intros H1 H2. unfold Names.strip.
  by rewrite (lstrip_black s), (lstrip_black (String.rev s)), rev_involutive.
Qed.

Lemma is_digit_not_space c : Names.is_digit c = true -> Names.is_space c = false.
Proof.
  unfold Names.is_digit, Names.is_space. cbv zeta.
  generalize (N_of_ascii c). intros n [H1%N.leb_le H2%N.leb_le]%andb_true_iff.
  destruct (N.eqb_spec n 32); [lia|].
  destruct (N.leb_spec 9 n), (N.leb_spec n 13), (N.leb_spec 28 n),
    (N.leb_spec n 31); simpl; try done; lia.
Qed.

Lemma digits_only_black s : digits_only s = true -> starts_black s.
Proof.
  destruct s as [|c s]; [done|]. simpl.
  intros [H _]%andb_true_iff. by apply is_digit_not_space.
Qed.

Lemma digits_only_rev_app s t :
  digits_only s = true -> digits_only t = true ->
  digits_only (String.rev_app s t) = true.
Proof.
  revert t. induction s as [|c s IH]; intros t; [done|]. simpl.
  intros [Hc Hs]%andb_true_iff Ht. apply IH; [done|]. simpl. by rewrite Hc.
Qed.

Lemma strip_digits s : digits_only s = true -> Names.strip s = s.
Proof.
  intros H. apply strip_black; [by apply digits_only_black|].
  apply digits_only_black. by apply digits_only_rev_app.
Qed.

Lemma digits_number s acc :
  digits_only s = true -> Names.digits s acc true = Some (number_of s acc).
Proof.
  revert acc. induction s as [|c s IH]; intros acc; [done|]. simpl.
  intros [Hc Hs]%andb_true_iff. rewrite Hc. by apply IH.
Qed.

Lemma int_digits c s :
  digits_only (String c s) = true ->
  Names.int (String c s) = Ok (number_of (String c s) 0).
Proof.
  intros H. unfold Names.int. rewrite strip_digits by done.
  pose proof H as [Hc Hs]%andb_true_iff.
  assert (Names.digits (String c s) 0 false = Some (number_of (String c s) 0))
    as Hd by (simpl; rewrite Hc; by apply digits_number).
  destruct (Ascii.eqb_spec c "+") as [->|Hp]; [done|].
  destruct (Ascii.eqb_spec c "-") as [->|Hm]; [done|].
  assert (match String c s with
          | String "+"%char t => Names.digits t 0 false
          | String "-"%char t => Z.opp <$> Names.digits t 0 false
          | t => Names.digits t 0 false
          end = Names.digits (String c s) 0 false) as ->.
  { destruct c as [[] [] [] [] [] [] [] []]; try done. }
  by rewrite Hd.
Qed.

Lemma pretty_N_char_digit k :
  (k < 10)%N ->
  Names.is_digit (pretty_N_char k) = true /\
  Names.digit_value (pretty_N_char k) = Z.of_N k.
Proof.
  intros Hk.
  assert (k = 0 \/ k = 1 \/ k = 2 \/ k = 3 \/ k = 4 \/ k = 5 \/ k = 6 \/ k = 7
          \/ k = 8 \/ k = 9)%N as Hcases by lia.
  repeat (destruct Hcases as [->|Hcases]; [by split|]). subst. by split.
Qed.

Lemma pretty_N_go_digits x : forall s,
  digits_only s = true -> digits_only (pretty_N_go x s) = true.
Proof.
  induction (N.lt_wf_0 x) as [x _ IH]. intros s Hs.
  destruct (decide (x = 0)%N) as [->|Hx]; [by rewrite pretty_N_go_0|].
  rewrite pretty_N_go_step by lia. apply IH.
  - apply N.div_lt; lia.
  - simpl. rewrite Hs.
    by destruct (pretty_N_char_digit (x `mod` 10)%N) as [-> _];
      [apply N.mod_lt|].
Qed.

Lemma pretty_N_go_number x :
  (0 < x)%N ->
  exists k, 0 <= k /\ forall s acc,
    number_of (pretty_N_go x s) acc = number_of s (acc * 10 ^ k + Z.of_N x).
Proof.
  induction (N.lt_wf_0 x) as [x _ IH]. intros Hx.
  destruct (pretty_N_char_digit (x `mod` 10)%N) as [_ Hv]; [by apply N.mod_lt|].
  pose proof (N.div_mod x 10 ltac:(lia)) as Hdm.
  destruct (decide (x `div` 10 = 0)%N) as [Hq|Hq].
  - exists 1. split; [lia|]. intros s acc.
    rewrite pretty_N_go_step, Hq, pretty_N_go_0 by done. simpl.
    rewrite Hv. f_equal. lia.
  - destruct (IH (x `div` 10)%N) as (k & Hk & Hnum);
      [apply N.div_lt; lia | by apply N.neq_0_lt_0 |].
    exists (k + 1). split; [lia|]. intros s acc.
    rewrite pretty_N_go_step, Hnum by done. simpl. rewrite Hv. f_equal.
    rewrite Z.pow_add_r by lia. lia.
Qed.

Lemma pretty_N_shape (n : N) :
  exists c s, pretty n = String c s /\ digits_only (String c s) = true /\
              number_of (String c s) 0 = Z.of_N n.
Proof.
  unfold pretty, pretty_N. destruct (decide (n = 0)%N) as [->|Hn].
  - by exists "0"%char, "".
  - assert (digits_only (pretty_N_go n "") = true) as Hd
      by (by apply pretty_N_go_digits).
    destruct (pretty_N_go_number n) as (k & _ & Hnum); [lia|].
    specialize (Hnum "" 0). simpl in Hnum.
    destruct (pretty_N_go n "") as [|c s] eqn:Hp.
    + simpl in Hnum. lia.
    + exists c, s. split; [done|]. split; [done|]. by rewrite Hnum.
Qed.

Lemma length_append (a b : string) :
  String.length (a +:+ b) = (String.length a + String.length b)%nat.
Proof. induction a as [|x a IH]; [done|]. rewrite append_cons. simpl. by rewrite IH. Qed.

Lemma substring_prefix (a t : string) :
  String.substring 0 (String.length a) (a +:+ t) = a.
Proof.
  induction a as [|x a IH]; [by destruct t|].
  rewrite append_cons. simpl. by rewrite IH.
Qed.

Lemma rfind_dot_free t : free_of "." t = true -> Names.rfind_dot t = None.
Proof.
  induction t as [|c t IH]; [done|]. simpl.
  intros [Hc Ht]%andb_true_iff. rewrite IH by done.
  by destruct (Ascii.eqb c "."). 
Qed.

Lemma rfind_dot_last (a t : string) :
  free_of "." t = true ->
  Names.rfind_dot (a +:+ String "." t) = Some (String.length a).
Proof.
  intros Ht. induction a as [|x a IH].
  - change ("" +:+ String "." t) with (String "." t).
    cbn [Names.rfind_dot]. by rewrite (rfind_dot_free t Ht).
  - rewrite append_cons. cbn [Names.rfind_dot]. by rewrite IH.
Qed.

Lemma stem_last (a t : string) :
  a <> "" -> t <> "" -> free_of "." t = true ->
  Names.stem (a +:+ String "." t) = a.
Proof.
  intros Ha Ht Hfree. unfold Names.stem. rewrite rfind_dot_last by done.
  rewrite length_append. cbn [String.length].
  rewrite bool_decide_eq_true_2.
  - apply substring_prefix.
  - destruct a; [done|]. destruct t; [done|]. simpl. lia.
Qed.

Lemma strip_prefix_other c s :
  Ascii.eqb "s" c = false -> Names.strip_prefix "shuffle" (String c s) = None.
Proof. intros H. cbn [Names.strip_prefix]. by rewrite H. Qed.

Lemma after_last_shuffle_free t acc :
  free_of "s" t = true -> Names.after_last_shuffle t acc = acc.
Proof.
  revert acc. induction t as [|c t IH]; intros acc; [done|].
  cbn [free_of]. intros [Hc Ht]%andb_true_iff.
  cbn [Names.after_last_shuffle]. rewrite strip_prefix_other.
  - by apply IH.
  - rewrite Ascii.eqb_sym. by apply negb_true_iff.
Qed.

Lemma after_last_shuffle_tail (a t : string) acc :
  free_of "s" t = true ->
  Names.after_last_shuffle (a +:+ "shuffle" +:+ t) acc = t.
Proof.
  intros Ht. revert acc. induction a as [|x a IH]; intros acc.
  - change ("" +:+ "shuffle" +:+ t) with (String "s" ("huffle" +:+ t)).
    cbn [Names.after_last_shuffle].
    change (String "s" ("huffle" +:+ t)) with ("shuffle" +:+ t).
    rewrite strip_prefix_app.
    apply after_last_shuffle_free.
    change ("huffle" +:+ t)
      with (String "h" (String "u" (String "f" (String "f" (String "l"
             (String "e" t)))))).
    cbn [free_of]. by rewrite Ht.
  - rewrite append_cons. cbn [Names.after_last_shuffle]. apply IH.
Qed.

Lemma is_digit_not c (k : ascii) :
  Names.is_digit k = false -> Names.is_digit c = true -> Ascii.eqb c k = false.
Proof.
  intros Hk Hc. destruct (Ascii.eqb_spec c k) as [->|]; [congruence | done].
Qed.

Lemma digits_only_free k s :
  Names.is_digit k = false -> digits_only s = true -> free_of k s = true.
Proof.
  intros Hk. induction s as [|c s IH]; [done|]. simpl.
  intros [Hc Hs]%andb_true_iff. by rewrite (is_digit_not c k), IH.
Qed.

Lemma free_of_append k (a b : string) :
  free_of k a = true -> free_of k b = true -> free_of k (a +:+ b) = true.
Proof.
  intros Ha Hb. induction a as [|x a IH]; [done|].
  rewrite append_cons. simpl in *.
  apply andb_true_iff in Ha as [-> Ha]. by rewrite IH.
Qed.

Lemma skip_digits_pickle s t :
  digits_only s = true ->
  Names.skip_digits (s +:+ ".pickle" +:+ t) = ".pickle" +:+ t.
Proof.
  induction s as [|c s IH]; [done|]. rewrite append_cons. simpl.
  intros [-> Hs]%andb_true_iff. by apply IH.
Qed.

Lemma match_shuffle_name c s t :
  digits_only (String c s) = true ->
  Names.match_shuffle ("shuffle" +:+ String c s +:+ ".pickle" +:+ t) = true.
Proof.
  intros [Hc Hs]%andb_true_iff. unfold Names.match_shuffle.
  rewrite strip_prefix_app, append_cons. unfold Names.match_digits_pickle.
  rewrite Hc, skip_digits_pickle, strip_prefix_app by done.
  by apply bool_decide_eq_true_2.
Qed.

Lemma match_any_shuffle_here u :
  Names.match_shuffle u = true -> Names.match_any_shuffle u = true.
Proof. intros H. destruct u; cbn [Names.match_any_shuffle]; by rewrite H. Qed.

Lemma match_any_shuffle_app x u :
  free_of "010" x = true -> Names.match_any_shuffle u = true ->
  Names.match_any_shuffle (x +:+ u) = true.
Proof.
  intros Hx Hu. induction x as [|c x IH]; [done|].
  rewrite append_cons. cbn [Names.match_any_shuffle].
  simpl in Hx. apply andb_true_iff in Hx as [-> Hx].
  rewrite IH by done. apply orb_true_r.
Qed.

Lemma re_match_name x n rest :
  x <> "" -> free_of "010" x = true ->
  Names.re_match (documentation_name x n rest) = true.
Proof.
  intros Hne Hx. unfold documentation_name, Names.re_match.
  rewrite strip_prefix_app.
  destruct x as [|c x]; [done|]. rewrite append_cons.
  simpl in Hx. apply andb_true_iff in Hx as [-> Hx]. simpl.
  apply match_any_shuffle_app; [done|].
  destruct (pretty_N_shape n) as (d & ds & -> & Hd & _).
  by apply match_any_shuffle_here, match_shuffle_name.
Qed.

Lemma documentation_name_stem x n :
  Names.stem (documentation_name x n "") =
  "Documentation_data-" +:+ x +:+ "shuffle" +:+ pretty n.
Proof.
  unfold documentation_name. rewrite append_nil_r.
  rewrite <- !append_assoc.
  by apply (stem_last _ "pickle").
Qed.

Lemma documentation_name_index x n :
  Names.int (Names.split_shuffle_last (Names.stem (documentation_name x n "")))
  = Ok (Z.of_N n).
Proof.
  rewrite documentation_name_stem. unfold Names.split_shuffle_last.
  destruct (pretty_N_shape n) as (d & ds & Hp & Hd & Hnum). rewrite Hp.
  rewrite <- append_assoc, after_last_shuffle_tail
    by (by apply digits_only_free).
  by rewrite int_digits, Hnum.
Qed.

Lemma path_name_last (dir : Path) (nm : string) : path_name (dir ++ [nm]) = nm.
Proof. unfold path_name. apply last_last. Qed.

Lemma shuffle_docs_cons p listing :
  Names.re_match (path_name p) = true ->
  shuffle_docs (p :: listing) = p :: shuffle_docs listing.
Proof. intros H. unfold shuffle_docs. rewrite filter_cons. by rewrite decide_True. Qed.

(** X19. The index of a shuffle is read back from the name of its
    documentation file.  For a file named "Documentation_data-", a non-empty
    part without newline, "shuffle", the decimal digits of a number and
    ".pickle", holding index collections that repeat no index, [create] on
    the listing of that file returns the registry of one record whose index
    is that number, with the train fraction of the file, the engine [TF] and
    the split of the sorted indices. *)
Theorem create_reads_index (aux : Auxiliary) (cfg : Config) (fs : FileSystem)
    (dir : Path) (x : string) (n : N) (d : Documentation) :
  x <> "" -> free_of "010" x = true ->
  fs !! (dir ++ [documentation_name x n ""]) = Some (Pickle d) ->
  NoDup (doc_train_idx d) -> NoDup (doc_test_idx d) ->
  Names.re_match (documentation_name x n "") = true /\
  Names.int (Names.split_shuffle_last (Names.stem (documentation_name x n "")))
    = Ok (Z.of_N n) /\
  create aux cfg fs [dir ++ [documentation_name x n ""]] =
  Ok (Build_TrainingDatasetMetadata cfg
        [ {| name := shuffle_name aux cfg (doc_train_frac d) (Z.of_N n);
             train_fraction := doc_train_frac d;
             index := Z.of_N n;
             engine := TF;
             split := Some (Build_DataSplit (sorted_ints (doc_train_idx d))
                                            (sorted_ints (doc_test_idx d))) |} ]).
Proof.
  intros Hx Hnl Hfs H1 H2.
  pose proof (re_match_name x n "" Hx Hnl) as Hre.
  split; [done|]. split; [apply documentation_name_index|].
  set (p := dir ++ [documentation_name x n ""]).
  set (r := Build_ShuffleMetadata _ _ _ _ _).
  assert (Forall2 (fun p r => migrated aux cfg fs p = Ok r) (shuffle_docs [p]) [r])
    as Hrs.
  { rewrite shuffle_docs_cons by (unfold p; by rewrite path_name_last).
    constructor; [|constructor].
    unfold migrated, p. rewrite path_name_last, documentation_name_index.
    cbn [mbind result_bind]. unfold pickle_load. rewrite Hfs.
    cbn [mbind result_bind]. by rewrite DataSplit_new_sorted_ints. }
  destruct (create_cases _ _ _ _ _ Hrs) as [[_ ->]|[Hu _]]; [done|].
  destruct Hu. apply NoDup_singleton.
Qed.

Lemma create_reads_index_witness :
  create aux0 cfg0 fs_legacy
    [trainset0 ++ [documentation_name "proj_60" 2 ""]] =
  Ok (Build_TrainingDatasetMetadata cfg0
        [ {| name := "projJun17-trainset60shuffle2";
             train_fraction := Q2Qc (3 # 5); index := 2; engine := TF;
             split := Some (Build_DataSplit [0; 1] [2; 3; 4]) |} ]).
Proof.
  apply (create_reads_index aux0 cfg0 fs_legacy trainset0 "proj_60" 2
           {| doc_train_idx := [0; 1]; doc_test_idx := [4; 3; 2];
              doc_train_frac := Q2Qc (3 # 5) |}).
  - discriminate.
  - reflexivity.
  - vm_compute. reflexivity.
  - apply (bool_decide_unpack _). vm_compute. exact I.
  - apply (bool_decide_unpack _). vm_compute. exact I.
Defined.

Lemma digits_stop s t : forall acc b,
  digits_only s = true -> Names.digits (s +:+ String "." t) acc b = None.
Proof.
  induction s as [|c s IH]; intros acc b; [done|].
  rewrite append_cons. simpl. intros [-> Hs]%andb_true_iff. by apply IH.
Qed.

Lemma int_not_a_number c s t :
  digits_only (String c s) = true -> starts_black (String.rev t) -> t <> "" ->
  Names.int (String c s +:+ String "." t) = Raise IntValueError.
Proof.
  intros Hd Ht Hne. unfold Names.int. rewrite strip_black.
  - pose proof Hd as [Hc _]%andb_true_iff.
    pose proof (digits_stop (String c s) t 0 false Hd) as Hnone.
    rewrite append_cons in Hnone |- *.
    destruct (Ascii.eqb_spec c "+") as [->|Hp]; [done|].
    destruct (Ascii.eqb_spec c "-") as [->|Hm]; [done|].
    assert (match String c (s +:+ String "." t) with
            | String "+"%char u => Names.digits u 0 false
            | String "-"%char u => Z.opp <$> Names.digits u 0 false
            | u => Names.digits u 0 false
            end = Names.digits (String c (s +:+ String "." t)) 0 false) as ->.
    { destruct c as [[] [] [] [] [] [] [] []]; try done. }
    by rewrite Hnone.
  - by apply digits_only_black in Hd.
  - unfold String.rev. rewrite rev_app_append.
    change (String.rev_app (String "." t) (String.rev_app (String c s) ""))
      with (String.rev_app t (String "." (String.rev_app (String c s) ""))).
    rewrite rev_app_rev. destruct (String.rev t) as [|a u] eqn:Hrev; [|done].
    destruct Hne. by rewrite <- (rev_involutive t), Hrev.
Qed.

(** X20. The pattern of the documentation files is matched at the start of
    a name only.  A file whose name is the name of a documentation file
    followed by a dot and a further extension, such as a copy kept beside
    the file, matches the pattern, and the index cannot be read from its
    name: [create] on a listing that starts with such a file fails with the
    error of [int], whatever the file holds and whatever follows in the
    listing. *)
Theorem create_fails_on_copy (aux : Auxiliary) (cfg : Config) (fs : FileSystem)
    (dir : Path) (x : string) (n : N) (ext : string) (listing : list Path) :
  x <> "" -> free_of "010" x = true ->
  ext <> "" -> free_of "." ext = true ->
  Names.re_match (documentation_name x n (String "." ext)) = true /\
  create aux cfg fs ((dir ++ [documentation_name x n (String "." ext)]) :: listing)
    = Raise IntValueError.
Proof.
  intros Hx Hnl Hext Hdot.
  pose proof (re_match_name x n (String "." ext) Hx Hnl) as Hre.
  split; [done|].
  set (p := dir ++ [documentation_name x n (String "." ext)]).
  assert (Names.int (Names.split_shuffle_last
                       (Names.stem (documentation_name x n (String "." ext))))
          = Raise IntValueError) as Hint.
  { unfold documentation_name. rewrite <- !append_assoc.
    rewrite stem_last; [|by destruct x |done|done].
    unfold Names.split_shuffle_last.
    destruct (pretty_N_shape n) as (c & ds & -> & Hd & _).
    rewrite !append_assoc.
    rewrite <- (append_assoc "Documentation_data-" x).
    rewrite after_last_shuffle_tail.
    - by apply int_not_a_number.
    - apply free_of_append; [by apply digits_only_free | done]. }
  unfold create. fold (shuffle_docs (p :: listing)).
  rewrite shuffle_docs_cons by (unfold p; by rewrite path_name_last).
  rewrite for_each_cons.
  pose proof (create_body_migrated aux cfg fs p [] ∅) as Hb.
  unfold migrated in Hb. subst p. rewrite path_name_last, Hint in Hb.
  cbn [mbind result_bind] in Hb. by rewrite Hb.
Qed.

Lemma create_fails_on_copy_witness :
  Names.re_match (documentation_name "proj_60" 2 ".bak") = true /\
  create aux0 cfg0 fs_legacy
    ((trainset0 ++ [documentation_name "proj_60" 2 ".bak"])
     :: entries fs_legacy trainset0)
  = Raise IntValueError.
Proof.
  apply (create_fails_on_copy aux0 cfg0 fs_legacy trainset0 "proj_60" 2 "bak").
  - discriminate.
  - reflexivity.
  - discriminate.
  - reflexivity.
Defined.

Lemma load_split_stable_witness :
  name (Build_ShuffleMetadata "a" (Q2Qc (3 # 5)) 0 TF
          (Some (Build_DataSplit [1; 3; 4] [0; 2]))) = name shuffle_unloaded /\
  sort_key (Build_ShuffleMetadata "a" (Q2Qc (3 # 5)) 0 TF
              (Some (Build_DataSplit [1; 3; 4] [0; 2])))
    = sort_key shuffle_unloaded.
Proof.
  destruct (load_split_stable aux0 shuffle_unloaded cfg0 trainset0 fs_unordered
              (Build_ShuffleMetadata "a" (Q2Qc (3 # 5)) 0 TF
                 (Some (Build_DataSplit [1; 3; 4] [0; 2]))))
    as (Hn & Hk & _).
  - vm_compute. reflexivity.
  - split; [exact Hn | exact Hk].
Defined.

(** ** The split ids of save *)

Lemma document_elem rs : forall ids (d0 : Document) item,
  item ∈ foldl document_step d0 (zip rs ids) ->
  item ∈ d0 \/
  exists j r i, rs !! j = Some r /\ ids !! j = Some i /\
                item = (name r, entry_of r i).
Proof.
  induction rs as [|r rs IH]; intros ids d0 item; [by left|].
  destruct ids as [|i ids]; [by left|]. cbn [zip zip_with foldl]. intros Hin.
  destruct (IH _ _ _ Hin) as [Hd|(j & r' & i' & Hr' & Hi' & ->)].
  - apply dict_set_elem in Hd as [->|?]; [|by left].
    right. by exists 0%nat, r, i.
  - right. by exists (S j), r', i'.
Qed.

(** X21. The split ids in the file that [save] writes.  Every entry of the
    document holds as its split a number from 1 to the number of distinct
    splits of the records; and when the names of the records are pairwise
    distinct, none is left out: every number of that range is the split of
    some entry. *)
Theorem save_split_ids (aux : Auxiliary) (m : TrainingDatasetMetadata)
    (fs fs' : FileSystem) (rs : list ShuffleMetadata) :
  Forall2
    (fun s r =>
       with_split aux (project_config m)
         (parent (path aux (project_config m))) fs s = Ok r)
    (shuffles m) rs ->
  save aux m fs = Ok fs' ->
  exists doc,
    fs' !! path aux (project_config m) = Some (Yaml doc) /\
    (forall nm e, (nm, e) ∈ doc ->
       1 <= entry_split e <= Z.of_nat (length (distinct (split <$> rs)))) /\
    (NoDup (name <$> shuffles m) ->
     forall i, 1 <= i <= Z.of_nat (length (distinct (split <$> rs))) ->
       exists nm e, (nm, e) ∈ doc /\ entry_split e = i).
Proof.
  intros Hrs (st & Hloop & _ & ->)%save_inv.
  destruct (save_loop _ _ _ _ _ _ Hrs [] ∅ [] interned_empty)
    as (ids & ds' & Hloop' & Hlen & _ & Hall).
  rewrite Hloop' in Hloop. injection Hloop as <-. simpl in Hall |- *.
  eexists. split; [by rewrite lookup_insert_eq|]. split.
  - intros nm e [Hin|(j & r & i & Hr & Hi & [= -> ->])]%document_elem;
      [by apply elem_of_nil in Hin|].
    destruct (Forall2_lookup_lr _ _ _ _ _ _ Hall Hr Hi) as [H1 Hsp].
    apply lookup_lt_Some in Hsp. cbn [entry_of entry_split]. lia.
  - intros Hnd i [Hi Hle].
    destruct (lookup_lt_is_Some_2 (distinct (split <$> rs)) (Z.to_nat (i - 1)))
      as [sp Hsp]; [lia|].
    assert (sp ∈ split <$> rs) as Hin
      by (apply elem_of_distinct; by eapply list_elem_of_lookup_2).
    apply list_elem_of_fmap in Hin as (r & -> & [j Hj]%list_elem_of_lookup_1).
    destruct (Forall2_lookup_l _ _ _ _ _ Hall Hj) as (i' & Hi' & Hfe).
    assert (i' = i) as ->
      by (by apply (first_encounter_id_inj (split <$> rs) (split r) (split r))).
    exists (name r), (entry_of r i). split; [|done].
    apply (document_last rs ids [] j); [done | done |].
    intros k r' Hjk Hr' Heq.
    rewrite <- (Forall2_with_split_names _ _ _ _ _ _ Hrs) in Hnd.
    assert (j = k) as ->; [|lia].
    eapply NoDup_lookup; [exact Hnd | |].
    + by rewrite list_lookup_fmap, Hj.
    + rewrite list_lookup_fmap, Hr'. simpl. by rewrite Heq.
Qed.

Lemma save_split_ids_witness :
  exists doc,
    (<[path aux0 cfg0 := Yaml (document_of (shuffles meta_three) [1; 2; 1])]>
       fs_project) !! path aux0 (project_config meta_three) = Some (Yaml doc) /\
    (forall nm e, (nm, e) ∈ doc ->
       1 <= entry_split e
         <= Z.of_nat (length (distinct (split <$> shuffles meta_three)))) /\
    (NoDup (name <$> shuffles meta_three) ->
     forall i,
       1 <= i <= Z.of_nat (length (distinct (split <$> shuffles meta_three))) ->
       exists nm e, (nm, e) ∈ doc /\ entry_split e = i).
Proof.
  apply (save_split_ids aux0 meta_three fs_project
           (<[path aux0 cfg0 := Yaml (document_of (shuffles meta_three) [1; 2; 1])]>
              fs_project)
           (shuffles meta_three)).
  - repeat constructor.
  - reflexivity.
Defined.

(** Two records of one name and of different splits: the registry has two
    distinct splits, and the file holds the one entry of the name, with the
    id of the second. *)
Example save_split_ids_same_name :
  (fs ← save aux0 (Build_TrainingDatasetMetadata cfg0 [shuffle_a0; shuffle_a1])
          fs_project;
   doc ← yaml_load fs (path aux0 cfg0);
   Ok (map (fun p : string * Entry => (fst p, entry_split (snd p))) doc)) =
  Ok [("a", 2)].
Proof. vm_compute. reflexivity. Qed.
